(** * TaskScheduler: a shallow embedding of [src/task_scheduler_do.ts]

    The Durable Object keeps tasks, an ordered id index, a capped event log
    and per-task last-run markers in its storage, and two in-memory fields
    that deduplicate its single wake request.  This development embeds

    - the JavaScript values the handler receives and stores ([JsVal]);
    - [computeNextFromSimpleCron], [scheduleAlarm], [appendEvents],
      [getEvents], the task-creation branch of [fetch], and [alarm];

    and states the properties of the specification against them. *)

From Stdlib Require Import ZArith Lia List String Ascii Bool Floats.
From stdpp Require Import gmap strings list.

Local Open Scope string_scope.
Local Open Scope Z_scope.

#[local] Set Warnings "-register-all".

(** ** JavaScript strings

    A string is a sequence of code units; this development covers the
    strings whose code units are below 256, one [ascii] per code unit. *)
Module JsString.

(** [String.prototype.trim] removes white space and line terminators.  Below
    256 these are TAB, LF, VT, FF, CR, SPACE and NO-BREAK SPACE. *)
Definition is_space (c : ascii) : bool :=
  let n := nat_of_ascii c in
  ((9 <=? n) && (n <=? 13) || (n =? 32) || (n =? 160))%nat.

Fixpoint trimStart (s : string) : string :=
  match s with
  | String c r => if is_space c then trimStart r else s
  | EmptyString => EmptyString
  end.

Fixpoint trimEnd (s : string) : string :=
  match s with
  | EmptyString => EmptyString
  | String c r =>
      match trimEnd r with
      | EmptyString => if is_space c then EmptyString else String c EmptyString
      | r' => String c r'
      end
  end.

Definition trim (s : string) : string := trimEnd (trimStart s).

(** The character class [\d]: the ten ASCII digits. *)
Definition is_digit (c : ascii) : bool :=
  let n := nat_of_ascii c in ((48 <=? n) && (n <=? 57))%nat.

Fixpoint all_digits (s : string) : bool :=
  match s with
  | EmptyString => true
  | String c r => is_digit c && all_digits r
  end.

(** The longest prefix of digits, and what follows it. *)
Fixpoint span_digits (s : string) : string * string :=
  match s with
  | String c r =>
      if is_digit c
      then let '(ds, rest) := span_digits r in (String c ds, rest)
      else (EmptyString, s)
  | EmptyString => (EmptyString, EmptyString)
  end.

(** The value of a run of decimal digits, most significant first. *)
Fixpoint decimal_from (acc : Z) (s : string) : Z :=
  match s with
  | EmptyString => acc
  | String c r => decimal_from (10 * acc + (Z.of_nat (nat_of_ascii c) - 48)) r
  end.

Definition decimal (s : string) : Z := decimal_from 0 s.

(** Truthiness of a string: every string but the empty one. *)
Definition truthy (s : string) : bool :=
  match s with EmptyString => false | _ => true end.

End JsString.

(** ** Numbers and dates

    Time values are integral numbers of milliseconds; a [Date] holds one of
    absolute value at most 8.64e15, or is invalid (its time value is NaN). *)

Definition MAX_TIME : Z := 8640000000000000.

Definition valid_time (t : Z) : Prop := - MAX_TIME <= t <= MAX_TIME.

Definition valid_timeb (t : Z) : bool := (- MAX_TIME <=? t) && (t <=? MAX_TIME).

Inductive JsDate : Type :=
  | ValidDate (t : Z)
  | InvalidDate.

(** [new Date(value)] for an integral [value]: TimeClip. *)
Definition new_Date (t : Z) : JsDate :=
  if valid_timeb t then ValidDate t else InvalidDate.

(** [date.getTime()]; [None] is NaN. *)
Definition getTime (d : JsDate) : option Z :=
  match d with ValidDate t => Some t | InvalidDate => None end.

(** [Number(digits)] for a non-empty run of decimal digits.  The result is
    the nearest double; it is [Infinity], here [None], from
    [2^1024 - 2^970] on (the midpoint between the largest double and
    [2^1024], a tie that rounds away).  Below [2^53] the double is the
    integer itself. *)
Definition INFINITY_FROM : Z := 2 ^ 1024 - 2 ^ 970.

Definition Number_of_digits (ds : string) : option Z :=
  let n := JsString.decimal ds in
  if n <? INFINITY_FROM then Some n else None.

(** ** RecurrenceEngine *)

(** The pattern [/^\*\/(\d+) \* \* \* \*$/]: the first group when the whole
    string matches. *)
Definition match_every_n_minutes (s : string) : option string :=
  match s with
  | String c1 (String c2 r) =>
      if Ascii.eqb c1 "*" && Ascii.eqb c2 "/" then
        let '(ds, rest) := JsString.span_digits r in
        if JsString.truthy ds && String.eqb rest " * * * *" then Some ds else None
      else None
  | _ => None
  end.

(** [computeNextFromSimpleCron(expr, from)]; [None] is [null].

    The source computes [from.getTime() + n * 60_000] on doubles and clips it
    with [new Date].  With [from] an integral time value within the Date
    range, the product is a multiple of 32 and therefore exact up to 2^58,
    and the sum is exact whenever it is within the range; when the exact
    sum is out of range so is the rounded one (rounding is monotone and the
    bounds are doubles).  Hence the clipped result is the one computed here
    on integers.  A [from] that is invalid has time value NaN, and so has the
    result. *)
Definition computeNextFromSimpleCron (expr : string) (from : JsDate) : option JsDate :=
  match match_every_n_minutes (JsString.trim expr) with
  | None => None
  | Some ds =>
      match Number_of_digits ds with
      | None => None                       (* !Number.isFinite(n) *)
      | Some n =>
          if n <=? 0 then None
          else match getTime from with
               | Some t => Some (new_Date (t + n * 60000))
               | None => Some InvalidDate
               end
      end
  end.

(** ** JavaScript values

    Request bodies and stored records are JSON; [JUndefined] is what reading
    an absent property yields.  An object is its list of own properties. *)
Inductive JsVal : Type :=
  | JUndefined
  | JNull
  | JBool (b : bool)
  | JNum (x : float)
  | JStr (s : string)
  | JArr (items : list JsVal)
  | JObj (fields : list (string * JsVal)).

Inductive JsError : Type :=
  | TypeError
  | RangeError
  | SyntaxError.

Module Js.

Definition is_nan (x : float) : bool := negb (PrimFloat.eqb x x).

(** [Number.isFinite] on a number. *)
Definition isFinite (x : float) : bool :=
  PrimFloat.ltb (PrimFloat.abs x) PrimFloat.infinity.

(** ToBoolean. *)
Definition truthy (v : JsVal) : bool :=
  match v with
  | JUndefined | JNull => false
  | JBool b => b
  | JNum x => negb (PrimFloat.eqb x PrimFloat.zero || is_nan x)
  | JStr s => JsString.truthy s
  | JArr _ | JObj _ => true
  end.

(** [typeof v === "object"]. *)
Definition typeof_object (v : JsVal) : bool :=
  match v with
  | JNull | JArr _ | JObj _ => true
  | _ => false
  end.

Fixpoint own_property (fields : list (string * JsVal)) (k : string) : JsVal :=
  match fields with
  | [] => JUndefined
  | (k', v) :: rest => if String.eqb k' k then v else own_property rest k
  end.

(** [v.k] for the property names the handlers read ([timing], [type],
    [seconds], [when], [cron], [title], ...): none of them is inherited, so
    only an object's own properties answer; reading from [null] or
    [undefined] throws. *)
Definition get (v : JsVal) (k : string) : JsError + JsVal :=
  match v with
  | JUndefined | JNull => inl TypeError
  | JObj fields => inr (own_property fields k)
  | _ => inr JUndefined
  end.

(** The same reading where the base is known not to be [null] or
    [undefined] (it was tested, or it is the request's own object). *)
Definition prop (v : JsVal) (k : string) : JsVal :=
  match v with
  | JObj fields => own_property fields k
  | _ => JUndefined
  end.

(** [a || b] and [a ?? b]. *)
Definition or_else (a b : JsVal) : JsVal := if truthy a then a else b.

Definition nullish_else (a b : JsVal) : JsVal :=
  match a with
  | JUndefined | JNull => b
  | _ => a
  end.

(** [v === "s"]. *)
Definition is_string (v : JsVal) (s : string) : bool :=
  match v with
  | JStr s' => String.eqb s' s
  | _ => false
  end.

Fixpoint join_comma (l : list string) : string :=
  match l with
  | [] => ""
  | [s] => s
  | s :: rest => s ++ "," ++ join_comma rest
  end.

(** The double nearest to an integer (round to nearest, ties to even). *)
Definition float_of_Z (z : Z) : float :=
  SF2Prim (binary_normalize prec emax z 0 false).

(** TimeClip: the time value of [new Date(x)]; [None] is NaN. *)
Definition TimeClip (x : float) : option Z :=
  match Prim2SF x with
  | S754_zero _ => Some 0
  | S754_finite neg m e =>
      let mag := if 0 <=? e then Z.pos m * 2 ^ e else Z.pos m / 2 ^ (- e) in
      if mag <=? MAX_TIME then Some (if neg then - mag else mag) else None
  | S754_infinity _ | S754_nan => None
  end.

Definition Date_of_float (x : float) : JsDate :=
  match TimeClip x with
  | Some t => ValidDate t
  | None => InvalidDate
  end.

End Js.

(** ** What the runtime provides

    [Date.parse] and [toISOString] are the runtime's; so are the conversions
    between numbers and their text.  [Date_parse s = None] stands for NaN.
    [toISOString] is applied to valid time values only (on an invalid date
    the method throws, see [toISOString_of]). *)
Record Runtime : Type := {
  Date_parse : string -> option Z;
  toISOString : Z -> string;
  StringToNumber : string -> float;
  NumberToString : float -> string
}.

Module Task.
(** [interface Task]; an absent optional property is [JUndefined]. *)
Record t : Type := {
  id : string;
  title : JsVal;
  description : JsVal;
  createdAt : string;
  nextRun : JsVal;
  timing : JsVal;
  recurrence : JsVal;
  enabled : bool;
  metadata : JsVal
}.

(** [task.enabled = e; task.nextRun = n]. *)
Definition reschedule (task : t) (e : bool) (n : JsVal) : t :=
  {| id := id task; title := title task; description := description task;
     createdAt := createdAt task; nextRun := n; timing := timing task;
     recurrence := recurrence task; enabled := e; metadata := metadata task |}.
End Task.

Inductive TaskEventKind : Type :=
  | created | updated | fired | disabled | error.

Module TaskEvent.
(** [interface TaskEvent]. *)
Record t : Type := {
  id : string;
  taskId : string;
  title : JsVal;
  kind : TaskEventKind;
  occurredAt : string;
  nextRun : JsVal;
  note : string
}.
End TaskEvent.

Definition EVENT_HISTORY_LIMIT : nat := 120.

(** ** The actor, its storage and its host

    Durable storage holds four families of keys: [task:<id>],
    [task:<id>:lastRun], [__index] and [__events].  Ids are the UUIDs the
    actor drew, so the families do not overlap and each is kept as a
    component of its own. *)
Record Storage : Type := {
  tasks : gmap string Task.t;
  lastRuns : gmap string string;
  index : option (list string);
  events : option (list TaskEvent.t)
}.

(** How [state.setAlarm] behaves: present and working, present and throwing,
    or absent (local development). *)
Inductive SetAlarm : Type :=
  | SetAlarmWorks
  | SetAlarmThrows
  | SetAlarmMissing.

(** The instance fields of [TaskScheduler] together with what it can observe
    of, and do to, its host: the clock ([clock k] is what the [k]-th reading
    returns), the UUID source, the durable alarm, queued microtasks that will
    run [alarm], and live [setTimeout] handles with their delays. *)
Record World : Type := {
  storage : Storage;
  pendingAlarmIso : option string;
  lastAlarmIso : option string;
  localTimers : list nat;
  clock : nat -> Z;
  clock_reads : nat;
  uuids : nat -> string;
  uuid_reads : nat;
  setAlarm : SetAlarm;
  durableAlarm : option Z;
  microtasks : nat;
  timers : list (nat * Z);
  timer_seq : nat
}.

Definition set_storage (f : Storage -> Storage) (w : World) : World :=
  {| storage := f (storage w); pendingAlarmIso := pendingAlarmIso w;
     lastAlarmIso := lastAlarmIso w; localTimers := localTimers w;
     clock := clock w; clock_reads := clock_reads w; uuids := uuids w;
     uuid_reads := uuid_reads w; setAlarm := setAlarm w;
     durableAlarm := durableAlarm w; microtasks := microtasks w;
     timers := timers w; timer_seq := timer_seq w |}.
Definition set_pendingAlarmIso (p : option string) (w : World) : World :=
  {| storage := storage w; pendingAlarmIso := p;
     lastAlarmIso := lastAlarmIso w; localTimers := localTimers w;
     clock := clock w; clock_reads := clock_reads w; uuids := uuids w;
     uuid_reads := uuid_reads w; setAlarm := setAlarm w;
     durableAlarm := durableAlarm w; microtasks := microtasks w;
     timers := timers w; timer_seq := timer_seq w |}.
Definition set_lastAlarmIso (p : option string) (w : World) : World :=
  {| storage := storage w; pendingAlarmIso := pendingAlarmIso w;
     lastAlarmIso := p; localTimers := localTimers w;
     clock := clock w; clock_reads := clock_reads w; uuids := uuids w;
     uuid_reads := uuid_reads w; setAlarm := setAlarm w;
     durableAlarm := durableAlarm w; microtasks := microtasks w;
     timers := timers w; timer_seq := timer_seq w |}.
Definition set_clock_reads (n : nat) (w : World) : World :=
  {| storage := storage w; pendingAlarmIso := pendingAlarmIso w;
     lastAlarmIso := lastAlarmIso w; localTimers := localTimers w;
     clock := clock w; clock_reads := n; uuids := uuids w;
     uuid_reads := uuid_reads w; setAlarm := setAlarm w;
     durableAlarm := durableAlarm w; microtasks := microtasks w;
     timers := timers w; timer_seq := timer_seq w |}.
Definition set_uuid_reads (n : nat) (w : World) : World :=
  {| storage := storage w; pendingAlarmIso := pendingAlarmIso w;
     lastAlarmIso := lastAlarmIso w; localTimers := localTimers w;
     clock := clock w; clock_reads := clock_reads w; uuids := uuids w;
     uuid_reads := n; setAlarm := setAlarm w;
     durableAlarm := durableAlarm w; microtasks := microtasks w;
     timers := timers w; timer_seq := timer_seq w |}.
Definition set_durableAlarm (a : option Z) (w : World) : World :=
  {| storage := storage w; pendingAlarmIso := pendingAlarmIso w;
     lastAlarmIso := lastAlarmIso w; localTimers := localTimers w;
     clock := clock w; clock_reads := clock_reads w; uuids := uuids w;
     uuid_reads := uuid_reads w; setAlarm := setAlarm w;
     durableAlarm := a; microtasks := microtasks w;
     timers := timers w; timer_seq := timer_seq w |}.
Definition set_microtasks (n : nat) (w : World) : World :=
  {| storage := storage w; pendingAlarmIso := pendingAlarmIso w;
     lastAlarmIso := lastAlarmIso w; localTimers := localTimers w;
     clock := clock w; clock_reads := clock_reads w; uuids := uuids w;
     uuid_reads := uuid_reads w; setAlarm := setAlarm w;
     durableAlarm := durableAlarm w; microtasks := n;
     timers := timers w; timer_seq := timer_seq w |}.
(** The local timer list, the host's live timers and its handle counter. *)
Definition set_timers (l : list nat) (t : list (nat * Z)) (n : nat) (w : World) : World :=
  {| storage := storage w; pendingAlarmIso := pendingAlarmIso w;
     lastAlarmIso := lastAlarmIso w; localTimers := l;
     clock := clock w; clock_reads := clock_reads w; uuids := uuids w;
     uuid_reads := uuid_reads w; setAlarm := setAlarm w;
     durableAlarm := durableAlarm w; microtasks := microtasks w;
     timers := t; timer_seq := n |}.

Definition set_tasks (f : gmap string Task.t -> gmap string Task.t) (s : Storage) : Storage :=
  {| tasks := f (tasks s); lastRuns := lastRuns s; index := index s; events := events s |}.
Definition set_lastRuns (f : gmap string string -> gmap string string) (s : Storage) : Storage :=
  {| tasks := tasks s; lastRuns := f (lastRuns s); index := index s; events := events s |}.
Definition set_index (i : option (list string)) (s : Storage) : Storage :=
  {| tasks := tasks s; lastRuns := lastRuns s; index := i; events := events s |}.
Definition set_events (e : option (list TaskEvent.t)) (s : Storage) : Storage :=
  {| tasks := tasks s; lastRuns := lastRuns s; index := index s; events := e |}.

(** ** Computations: state passing with exceptions

    A thrown exception leaves the world as it was when it was thrown: what
    was written to storage before stays written. *)
Inductive Outcome (A : Type) : Type :=
  | Ok (a : A)
  | Throw (e : JsError).
Arguments Ok {A} a.
Arguments Throw {A} e.

Definition M (A : Type) : Type := World -> Outcome A * World.

Definition ret {A} (a : A) : M A := fun w => (Ok a, w).

Definition throw {A} (e : JsError) : M A := fun w => (Throw e, w).

Definition bind {A B} (m : M A) (k : A -> M B) : M B :=
  fun w =>
    match m w with
    | (Ok a, w') => k a w'
    | (Throw e, w') => (Throw e, w')
    end.

Definition read {A} (f : World -> A) : M A := fun w => (Ok (f w), w).

Definition modify (f : World -> World) : M unit := fun w => (Ok tt, f w).

Definition lift {A} (r : JsError + A) : M A :=
  match r with
  | inl e => throw e
  | inr a => ret a
  end.

Notation "'let*' x ':=' m 'in' k" := (bind m (fun x => k))
  (at level 10, x pattern, m at level 100, k at level 200).
Notation "m ';;;' k" := (bind m (fun _ => k))
  (at level 100, k at level 200, right associativity).

(** [Date.now()]. *)
Definition Date_now : M Z :=
  fun w => (Ok (clock w (clock_reads w)), set_clock_reads (S (clock_reads w)) w).

(** [new Date()]: the clock's reading, which is a valid time value. *)
Definition Date_current : M JsDate :=
  let* now := Date_now in ret (ValidDate now).

(** [crypto.randomUUID()]. *)
Definition randomUUID : M string :=
  fun w => (Ok (uuids w (uuid_reads w)), set_uuid_reads (S (uuid_reads w)) w).

(** ** The scheduler's methods *)
Section TaskScheduler.

Variable R : Runtime.

(** [date.toISOString()]: a RangeError on an invalid date. *)
Definition toISOString_of (d : JsDate) : M string :=
  match d with
  | ValidDate t => ret (toISOString R t)
  | InvalidDate => throw RangeError
  end.

(** ToString, for what [Date.parse] and [Number] are handed. *)
Fixpoint ToString (v : JsVal) : string :=
  match v with
  | JUndefined => "undefined"
  | JNull => "null"
  | JBool true => "true"
  | JBool false => "false"
  | JNum x => NumberToString R x
  | JStr s => s
  | JArr items =>
      Js.join_comma
        (List.map (fun e => match e with
                            | JUndefined | JNull => ""
                            | _ => ToString e
                            end) items)
  | JObj _ => "[object Object]"
  end.

(** [Number(v)]. *)
Definition Number_of (v : JsVal) : float :=
  match v with
  | JUndefined => PrimFloat.nan
  | JNull => PrimFloat.zero
  | JBool true => PrimFloat.one
  | JBool false => PrimFloat.zero
  | JNum x => x
  | JStr s => StringToNumber R s
  | JArr _ | JObj _ => StringToNumber R (ToString v)
  end.

(** [Date.parse(v)]; [None] is NaN. *)
Definition Date_parse_of (v : JsVal) : option Z := Date_parse R (ToString v).

(** A string field that is [null] counts as absent: [if (this.field)]. *)
Definition truthy_field (f : option string) : option string :=
  match f with
  | Some s => if JsString.truthy s then Some s else None
  | None => None
  end.

Definition same_iso (f : option string) (iso : string) : bool :=
  match f with
  | Some s => String.eqb s iso
  | None => false
  end.

(** [clearTimeout] for each handle in [ids]. *)
Definition clear_timers (ids : list nat) (live : list (nat * Z)) : list (nat * Z) :=
  List.filter (fun t => negb (existsb (Nat.eqb (fst t)) ids)) live.

(** The volatile fallback of [scheduleAlarm] (lines 64-90). *)
Definition arm_fallback (t : Z) (iso : string) : M unit :=
  let* now := Date_now in
  let delay := t - now in
  if delay <=? 0 then
    let* last := read lastAlarmIso in
    if same_iso last iso then ret tt
    else modify (fun w => set_microtasks (S (microtasks w)) w)
  else
    modify (fun w =>
      let id := timer_seq w in
      set_timers [id] (clear_timers (localTimers w) (timers w) ++ [(id, delay)])%list (S id) w).

(** [scheduleAlarm(date)].  [date.toISOString()] comes first and throws on
    an invalid date. *)
Definition scheduleAlarm (date : JsDate) : M unit :=
  match date with
  | InvalidDate => throw RangeError
  | ValidDate incoming =>
      let iso := toISOString R incoming in
      let* now := Date_now in
      if incoming <=? now + 50 then ret tt
      else
        let* pending := read pendingAlarmIso in
        let skip :=
          match truthy_field pending with
          | Some p =>
              match Date_parse R p with
              | Some existing => existing <=? incoming
              | None => false
              end
          | None => false
          end in
        if skip then ret tt
        else
          let* last := read lastAlarmIso in
          if same_iso last iso then ret tt
          else
            modify (set_pendingAlarmIso (Some iso)) ;;;
            let* facility := read setAlarm in
            match facility with
            | SetAlarmWorks => modify (set_durableAlarm (Some incoming))
            | SetAlarmThrows | SetAlarmMissing => arm_fallback incoming iso
            end
  end.

(** [appendEvents(events)]. *)
Definition appendEvents (batch : list TaskEvent.t) : M unit :=
  match batch with
  | [] => ret tt
  | _ =>
      let* stored := read (fun w => events (storage w)) in
      let existing := default [] stored in
      let merged := (existing ++ batch)%list in
      let trimmed :=
        if (length merged <=? EVENT_HISTORY_LIMIT)%nat then merged
        else skipn (length merged - EVENT_HISTORY_LIMIT) merged in
      modify (set_storage (set_events (Some trimmed)))
  end.

(** [getEvents(sinceIso)]; [None] is [null]. *)
Definition getEvents (sinceIso : option string) : M (list TaskEvent.t) :=
  let* stored := read (fun w => events (storage w)) in
  let events := default [] stored in
  match truthy_field sinceIso with
  | None => ret events
  | Some s =>
      match Date_parse R s with
      | None => ret events
      | Some since =>
          ret (List.filter
                 (fun evt =>
                    match Date_parse R (TaskEvent.occurredAt evt) with
                    | Some ts => since <? ts
                    | None => false
                    end) events)
      end
  end.

(** *** Creating a task: [POST /tasks] *)

Inductive Payload : Type :=
  | TaskPayload (task : Task.t)
  | ErrorMessage (text : string)
  | ErrorThrown (e : JsError).

Record Response : Type := {
  status : Z;
  payload : Payload
}.

Definition json_error (text : string) : Response :=
  {| status := 400; payload := ErrorMessage text |}.

(** The text of the creation note ([buildCreationNote], which formats
    instants through [Intl.DateTimeFormat]). *)
Variable buildCreationNote : Task.t -> string.

Definition timing_types : list string :=
  ["datetime"; "delay"; "natural"; "recurring"].

(** [[...].includes(timingType)]: strict equality with one of the strings. *)
Definition includes_type (v : JsVal) : bool :=
  existsb (Js.is_string v) timing_types.

(** The validation of [body.timing] (lines 163-191): the response that
    rejects it, if any.  [timing] is [body.timing]. *)
Definition validate_timing (timing : JsVal) : option Response :=
  if negb (Js.truthy timing) || negb (Js.typeof_object timing)
     || negb (Js.truthy (Js.prop timing "type"))
  then Some (json_error "Missing or invalid timing property")
  else
    let timingType := Js.prop timing "type" in
    if negb (includes_type timingType)
    then Some (json_error ("Unsupported timing type: " ++ ToString timingType))
    else if Js.is_string timingType "delay"
            && (let secs := Number_of (Js.prop timing "seconds") in
                negb (Js.isFinite secs) || PrimFloat.leb secs PrimFloat.zero)
    then Some (json_error "Delay seconds must be a positive number")
    else if Js.is_string timingType "datetime"
            && (let when := Js.prop timing "when" in
                negb (Js.truthy when) || negb (bool_decide (is_Some (Date_parse_of when))))
    then Some (json_error "Invalid datetime 'when' value")
    else if Js.is_string timingType "natural"
    then Some (json_error "Timing type 'natural' must be converted to 'datetime' before creation")
    else None.

Definition created_event (evid : string) (task : Task.t) (at_iso : string)
    (note : string) : TaskEvent.t :=
  {| TaskEvent.id := evid; TaskEvent.taskId := Task.id task;
     TaskEvent.title := Task.title task; TaskEvent.kind := created;
     TaskEvent.occurredAt := at_iso;
     TaskEvent.nextRun := Js.nullish_else (Task.nextRun task) JNull;
     TaskEvent.note := note |}.

(** [task.nextRun] as the creation branch computes it (lines 206-220). *)
Definition initial_nextRun (timing : JsVal) : M JsVal :=
  let timingType := Js.prop timing "type" in
  if Js.is_string timingType "datetime" then ret (Js.prop timing "when")
  else if Js.is_string timingType "delay" then
    let* now := Date_now in
    let target :=
      PrimFloat.add (Js.float_of_Z now)
        (PrimFloat.mul (Number_of (Js.prop timing "seconds")) 1000%float) in
    let* iso := toISOString_of (Js.Date_of_float target) in
    ret (JStr iso)
  else if Js.is_string timingType "recurring" then
    match Js.prop timing "cron" with
    | JStr c =>
        let cron := JsString.trim c in
        let* from := Date_current in
        match computeNextFromSimpleCron cron from with
        | Some next => let* iso := toISOString_of next in ret (JStr iso)
        | None => ret JUndefined
        end
    | _ => throw TypeError               (* .trim is not a function *)
    end
  else ret JUndefined.

(** The body of the [try] block (lines 161-248). *)
Definition create_task_try (body : JsVal) : M Response :=
  let* timing := lift (Js.get body "timing") in
  match validate_timing timing with
  | Some rejection => ret rejection
  | None =>
      let* id := randomUUID in
      let* now := Date_current in
      let* nowIso := toISOString_of now in
      let* nextRun := initial_nextRun timing in
      let task :=
        {| Task.id := id;
           Task.title := Js.or_else (Js.prop body "title") (JStr "Untitled");
           Task.description := Js.nullish_else (Js.prop body "description") JUndefined;
           Task.createdAt := nowIso;
           Task.nextRun := nextRun;
           Task.timing := timing;
           Task.recurrence := Js.nullish_else (Js.prop body "recurrence") JNull;
           Task.enabled := match Js.prop body "enabled" with
                           | JBool false => false
                           | _ => true
                           end;
           Task.metadata := Js.nullish_else (Js.prop body "metadata") (JObj []) |} in
      modify (set_storage (set_tasks (insert id task))) ;;;
      let* idx := read (fun w => default [] (index (storage w))) in
      modify (set_storage (set_index (Some (idx ++ [id])%list))) ;;;
      (if Js.truthy (Task.nextRun task) then
         match Date_parse_of (Task.nextRun task) with
         | Some next => scheduleAlarm (new_Date next)
         | None => ret tt
         end
       else ret tt) ;;;
      let creationNote := buildCreationNote task in
      let* evid := randomUUID in
      let* at_date := Date_current in
      let* at_iso := toISOString_of at_date in
      appendEvents [created_event evid task at_iso creationNote] ;;;
      ret {| status := 201; payload := TaskPayload task |}
  end.

(** [POST /tasks]: the [try] block with its [catch].  [body = None] is a
    request whose body is not JSON, on which [request.json()] rejects. *)
Definition create_task (body : option JsVal) : M Response :=
  fun w =>
    match body with
    | None => (Ok {| status := 400; payload := ErrorThrown SyntaxError |}, w)
    | Some b =>
        match create_task_try b w with
        | (Ok r, w') => (Ok r, w')
        | (Throw e, w') => (Ok {| status := 400; payload := ErrorThrown e |}, w')
        end
    end.

(** *** The wake handler: [alarm] *)

Definition fired_event (evid id : string) (task : Task.t) (firedIso note : string)
    : TaskEvent.t :=
  {| TaskEvent.id := evid; TaskEvent.taskId := id;
     TaskEvent.title := Js.or_else (Task.title task) (JStr "Untitled task");
     TaskEvent.kind := fired;
     TaskEvent.occurredAt := firedIso;
     TaskEvent.nextRun := Js.nullish_else (Task.nextRun task) JNull;
     TaskEvent.note := note |}.

Definition earlier (earliest : option Z) (t : Z) : option Z :=
  match earliest with
  | None => Some t
  | Some e => if t <? e then Some t else Some e
  end.

(** What a due task becomes (lines 287-307): the task as it is stored back,
    the candidate for the next wake it contributes, and the note. *)
Definition advance (task : Task.t) (earliest : option Z)
    : M (Task.t * option Z * string) :=
  if negb (Js.truthy (Task.recurrence task)) then
    ret (Task.reschedule task false JUndefined, earliest, "Task completed")
  else
    let* timingType := lift (Js.get (Task.timing task) "type") in
    let cronExpr :=
      if Js.is_string timingType "recurring"
      then Js.prop (Task.timing task) "cron"
      else Js.or_else (Task.recurrence task) (JStr "") in
    let* from := Date_current in
    match cronExpr with
    | JStr expr =>
        match computeNextFromSimpleCron expr from with
        | Some (ValidDate nextTime) =>
            ret (Task.reschedule task (Task.enabled task)
                   (JStr (toISOString R nextTime)),
                 earlier earliest nextTime, "Recurring task rescheduled")
        | Some InvalidDate =>
            throw RangeError               (* new Date(NaN).toISOString() *)
        | None =>
            ret (Task.reschedule task false JUndefined, earliest,
                 "Recurring task disabled (invalid cron)")
        end
    | _ => throw TypeError                 (* expr.trim is not a function *)
    end.

(** The body of the loop over the index (lines 278-322), for one id:
    [earliest] and [firedEvents] as it leaves them. *)
Definition alarm_visit (effectiveNow : Z) (id : string)
    (earliest : option Z) (firedEvents : list TaskEvent.t)
    : M (option Z * list TaskEvent.t) :=
  let* stored := read (fun w => tasks (storage w) !! id) in
  match stored with
  | None => ret (earliest, firedEvents)
  | Some task =>
      if negb (Task.enabled task) || negb (Js.truthy (Task.nextRun task))
      then ret (earliest, firedEvents)
      else
        match Date_parse_of (Task.nextRun task) with
        | None => ret (earliest, firedEvents)
        | Some nextRun =>
            if nextRun <=? effectiveNow then
              let* firedDate := Date_current in
              let* firedIso := toISOString_of firedDate in
              modify (set_storage (set_lastRuns (insert id firedIso))) ;;;
              let* advanced := advance task earliest in
              let '(task', earliest', note) := advanced in
              modify (set_storage (set_tasks (insert id task'))) ;;;
              let* evid := randomUUID in
              ret (earliest',
                   (firedEvents ++ [fired_event evid id task' firedIso note])%list)
            else
              ret (if effectiveNow <? nextRun then earlier earliest nextRun
                   else earliest,
                   firedEvents)
        end
  end.

(** The loop over the index (lines 277-323). *)
Fixpoint alarm_loop (effectiveNow : Z) (idx : list string)
    (earliest : option Z) (firedEvents : list TaskEvent.t)
    : M (option Z * list TaskEvent.t) :=
  match idx with
  | [] => ret (earliest, firedEvents)
  | id :: rest =>
      let* visited := alarm_visit effectiveNow id earliest firedEvents in
      let '(earliest', firedEvents') := visited in
      alarm_loop effectiveNow rest earliest' firedEvents'
  end.

(** The end of [alarm] (lines 329-337): hand the earliest future candidate
    to [scheduleAlarm], moved half a second ahead if it is all but past. *)
Definition rearm (earliest : option Z) : M unit :=
  match earliest with
  | None => ret tt
  | Some e =>
      let* now1 := Date_now in
      if e <=? now1 + 25 then
        let* now2 := Date_now in
        scheduleAlarm (new_Date (now2 + 500))
      else scheduleAlarm (new_Date e)
  end.

(** [alarm()]. *)
Definition alarm : M unit :=
  let* justFiredIso := read pendingAlarmIso in
  modify (set_pendingAlarmIso None) ;;;
  let* nowDate := Date_current in
  let* nowIso := toISOString_of nowDate in
  modify (set_lastAlarmIso
            (Some (match truthy_field justFiredIso with
                   | Some iso => iso
                   | None => nowIso
                   end))) ;;;
  let* now := Date_now in
  let effectiveNow := now + 250 in
  let* idx := read (fun w => default [] (index (storage w))) in
  let* result := alarm_loop effectiveNow idx None [] in
  let '(earliest, firedEvents) := result in
  (match firedEvents with
   | [] => ret tt
   | _ => appendEvents firedEvents
   end) ;;;
  rearm earliest.

End TaskScheduler.

(** ** A runtime to run the handlers on

    Instants are printed the way [toISOString] prints them
    ([YYYY-MM-DDTHH:mm:ss.sssZ], six-digit signed years outside 0..9999), and
    [Date.parse] reads back exactly that format (engines read more).
    Numbers are read and printed as plain decimal integers. *)
Module Iso8601.

Definition digit_char (d : Z) : ascii := ascii_of_nat (48 + Z.to_nat d).

(** The [k] low decimal digits of [n], zero padded. *)
Fixpoint digits (k : nat) (n : Z) : string :=
  match k with
  | O => ""
  | S k' => digits k' (n / 10) ++ String (digit_char (n mod 10)) ""
  end.

(** Days since 1970-01-01 to (year, month, day), proleptic Gregorian. *)
Definition civil_from_days (z : Z) : Z * Z * Z :=
  let z := z + 719468 in
  let era := z / 146097 in
  let doe := z - era * 146097 in
  let yoe := (doe - doe / 1460 + doe / 36524 - doe / 146096) / 365 in
  let doy := doe - (365 * yoe + yoe / 4 - yoe / 100) in
  let mp := (5 * doy + 2) / 153 in
  let d := doy - (153 * mp + 2) / 5 + 1 in
  let m := if mp <? 10 then mp + 3 else mp - 9 in
  ((yoe + era * 400) + (if m <=? 2 then 1 else 0), m, d).

Definition days_from_civil (y m d : Z) : Z :=
  let y := if m <=? 2 then y - 1 else y in
  let era := y / 400 in
  let yoe := y - era * 400 in
  let doy := (153 * (if 2 <? m then m - 3 else m + 9) + 2) / 5 + d - 1 in
  let doe := yoe * 365 + yoe / 4 - yoe / 100 + doy in
  era * 146097 + doe - 719468.

Definition print (t : Z) : string :=
  let day := t / 86400000 in
  let ms := t mod 86400000 in
  let '(y, m, d) := civil_from_days day in
  let year :=
    if (0 <=? y) && (y <=? 9999) then digits 4 y
    else (if y <? 0 then "-" else "+") ++ digits 6 (Z.abs y) in
  year ++ "-" ++ digits 2 m ++ "-" ++ digits 2 d ++ "T"
    ++ digits 2 (ms / 3600000) ++ ":" ++ digits 2 (ms / 60000 mod 60) ++ ":"
    ++ digits 2 (ms / 1000 mod 60) ++ "." ++ digits 3 (ms mod 1000) ++ "Z".

(** [k] decimal digits off the front of [s]. *)
Fixpoint read_digits (k : nat) (acc : Z) (s : string) : option (Z * string) :=
  match k with
  | O => Some (acc, s)
  | S k' =>
      match s with
      | String c r =>
          if JsString.is_digit c
          then read_digits k' (10 * acc + (Z.of_nat (nat_of_ascii c) - 48)) r
          else None
      | EmptyString => None
      end
  end.

Definition expect (c : ascii) (s : string) : option string :=
  match s with
  | String c' r => if Ascii.eqb c c' then Some r else None
  | EmptyString => None
  end.

Definition read_year (s : string) : option (Z * string) :=
  match s with
  | String "+" r => read_digits 6 0 r
  | String "-" r =>
      match read_digits 6 0 r with
      | Some (y, r') => Some (- y, r')
      | None => None
      end
  | _ => read_digits 4 0 s
  end.

Definition parse (s : string) : option Z :=
  '(y, s) ← read_year s;
  s ← expect "-" s; '(m, s) ← read_digits 2 0 s;
  s ← expect "-" s; '(d, s) ← read_digits 2 0 s;
  s ← expect "T" s; '(hh, s) ← read_digits 2 0 s;
  s ← expect ":" s; '(mm, s) ← read_digits 2 0 s;
  s ← expect ":" s; '(ss, s) ← read_digits 2 0 s;
  s ← expect "." s; '(ms, s) ← read_digits 3 0 s;
  s ← expect "Z" s;
  let t := days_from_civil y m d * 86400000
           + hh * 3600000 + mm * 60000 + ss * 1000 + ms in
  if JsString.truthy s then None
  else if (1 <=? m) && (m <=? 12) && (1 <=? d) && (d <=? 31)
          && (hh <=? 23) && (mm <=? 59) && (ss <=? 59) && valid_timeb t
       then Some t else None.

(** Decimal text of a non-negative integer, at least one digit. *)
Fixpoint decimal_text (fuel : nat) (n : Z) : string :=
  match fuel with
  | O => ""
  | S fuel' =>
      (if n <? 10 then "" else decimal_text fuel' (n / 10))
        ++ String (digit_char (n mod 10)) ""
  end.

Definition number_text (x : float) : string :=
  match Js.TimeClip x with
  | Some n =>
      (if n <? 0 then "-" else "") ++ decimal_text 17 (Z.abs n)
  | None => "NaN"
  end.

Definition number_of_text (s : string) : float :=
  if JsString.truthy s && JsString.all_digits s
  then Js.float_of_Z (JsString.decimal s)
  else PrimFloat.nan.

Definition runtime : Runtime :=
  {| Date_parse := parse; toISOString := print;
     StringToNumber := number_of_text; NumberToString := number_text |}.

End Iso8601.

(** ** Sample states *)
Module Sample.

(** A host whose clock stands at 2023-11-14T22:13:20.000Z. *)
Definition now : Z := 1700000000000.

Definition uuid (k : nat) : string := "uuid-" ++ Iso8601.decimal_text 6 (Z.of_nat k).

Definition empty_storage : Storage :=
  {| tasks := ∅; lastRuns := ∅; index := None; events := None |}.

Definition world (s : Storage) (tick : Z) : World :=
  {| storage := s; pendingAlarmIso := None; lastAlarmIso := None;
     localTimers := []; clock := fun k => now + tick * Z.of_nat k;
     clock_reads := 0; uuids := uuid; uuid_reads := 0;
     setAlarm := SetAlarmWorks; durableAlarm := None; microtasks := 0;
     timers := []; timer_seq := 0 |}.

(** The [k]-th of a run of events, one per second from [now]. *)
Definition event (k : nat) : TaskEvent.t :=
  {| TaskEvent.id := "event-" ++ Iso8601.decimal_text 6 (Z.of_nat k);
     TaskEvent.taskId := "task-a"; TaskEvent.title := JStr "Heartbeat";
     TaskEvent.kind := fired;
     TaskEvent.occurredAt := Iso8601.print (now + 1000 * Z.of_nat k);
     TaskEvent.nextRun := JNull; TaskEvent.note := "Recurring task rescheduled" |}.

Definition logged (n : nat) : Storage :=
  set_events (Some (List.map event (seq 0 n))) empty_storage.

Definition creation_note (task : Task.t) : string := "Scheduled".

Definition request (title : string) (timing : list (string * JsVal)) : JsVal :=
  JObj [("title", JStr title); ("timing", JObj timing)].

Definition natural_request : JsVal :=
  request "Call" [("type", JStr "natural"); ("text", JStr "tomorrow morning")].

Definition zero_delay_request : JsVal :=
  request "Stand-up" [("type", JStr "delay"); ("seconds", JNum 0%float)].

Definition vague_datetime_request : JsVal :=
  request "Review" [("type", JStr "datetime"); ("when", JStr "soon")].

Definition daily_request : JsVal :=
  request "Digest" [("type", JStr "recurring"); ("cron", JStr "0 9 * * *")].

Definition heartbeat_request : JsVal :=
  request "Heartbeat" [("type", JStr "recurring"); ("cron", JStr "*/5 * * * *")].

Definition standup_request : JsVal :=
  request "Stand-up" [("type", JStr "delay"); ("seconds", JNum 1%float)].

(** A one-off task that also carries a recurrence rule, every 200000000000
    minutes: an instant no [Date] can hold. *)
Definition backup_request : JsVal :=
  JObj [("title", JStr "Backup");
        ("timing", JObj [("type", JStr "delay"); ("seconds", JNum 1%float)]);
        ("recurrence", JStr "*/200000000000 * * * *")].

(** A task that recurs every five minutes, by its timing and by its
    [recurrence] property. *)
Definition digest_request : JsVal :=
  JObj [("title", JStr "Digest");
        ("timing", JObj [("type", JStr "recurring"); ("cron", JStr "*/5 * * * *")]);
        ("recurrence", JStr "*/5 * * * *")].

(** The world after [POST /tasks] with [body]. *)
Definition create (body : JsVal) (w : World) : World :=
  snd (create_task Iso8601.runtime creation_note (Some body) w).

(** The same world [dt] milliseconds later, with the clock standing still
    from then on. *)
Definition later (dt : Z) (w : World) : World :=
  {| storage := storage w; pendingAlarmIso := pendingAlarmIso w;
     lastAlarmIso := lastAlarmIso w; localTimers := localTimers w;
     clock := fun _ => clock w (clock_reads w) + dt;
     clock_reads := clock_reads w; uuids := uuids w;
     uuid_reads := uuid_reads w; setAlarm := setAlarm w;
     durableAlarm := durableAlarm w; microtasks := microtasks w;
     timers := timers w; timer_seq := timer_seq w |}.



(** What a log shows of each event. *)
Definition summary (log : list TaskEvent.t) : list (string * TaskEventKind * string) :=
  List.map (fun e => (TaskEvent.taskId e, TaskEvent.kind e, TaskEvent.note e)) log.

End Sample.

(** * Properties *)

(** ** Vocabulary of the specification *)

(** "The shape [*/N * * * *]": a slash-prefixed run of digits over the
    minutes field and a wildcard in the four other fields. *)
Definition every_n_minutes_shape (s digits : string) : Prop :=
  s = "*/" ++ digits ++ " * * * *"
  /\ digits <> "" /\ JsString.all_digits digits = true.

(** "[expr] is a supported every-N-minutes expression": its trimmed text has
    the shape, with N positive and finite as a Number. *)
Definition supported_cron (expr : string) : Prop :=
  exists ds, every_n_minutes_shape (JsString.trim expr) ds
             /\ 0 < JsString.decimal ds < INFINITY_FROM.

(** "The last [n] entries" of a log. *)
Definition last_entries {A} (n : nat) (log : list A) : list A :=
  rev (firstn n (rev log)).

(** "[evt] occurred strictly after [since]". *)
Definition occurred_after (R : Runtime) (since : Z) (evt : TaskEvent.t) : Prop :=
  exists ts, Date_parse R (TaskEvent.occurredAt evt) = Some ts /\ since < ts.

(** "Exactly the entries that satisfy [P], in their order": [picked] is
    [log] with the entries that fail [P] struck out. *)
Inductive selection {A} (P : A -> Prop) : list A -> list A -> Prop :=
  | selection_nil : selection P [] []
  | selection_keep x log picked :
      P x -> selection P log picked -> selection P (x :: log) (x :: picked)
  | selection_drop x log picked :
      ~ P x -> selection P log picked -> selection P (x :: log) picked.

(** The stored event log; an absent record is the empty log. *)
Definition event_log (w : World) : list TaskEvent.t :=
  default [] (events (storage w)).

(** "A pending timestamp exists with pending at most [candidate]". *)
Definition pending_not_later (R : Runtime) (w : World) (candidate : Z) : Prop :=
  exists p existing,
    pendingAlarmIso w = Some p /\ p <> ""
    /\ Date_parse R p = Some existing /\ existing <= candidate.

(** The test of lines 36-44, as a function of the world. *)
Definition pending_blocks (R : Runtime) (w : World) (candidate : Z) : bool :=
  match truthy_field (pendingAlarmIso w) with
  | Some p =>
      match Date_parse R p with
      | Some existing => existing <=? candidate
      | None => false
      end
  | None => false
  end.

(** The world after one more reading of the clock, and nothing else. *)
Definition clock_read (w : World) : World :=
  set_clock_reads (S (clock_reads w)) w.

(** The timings that the specification has a create request rejected
    for: missing or invalid, of an unsupported variant, of variant
    [natural], a delay whose seconds are not finite or not positive, a
    datetime that does not parse to an instant. *)
Inductive invalid_timing (R : Runtime) (timing : JsVal) : Prop :=
  | timing_missing :
      Js.truthy timing = false -> invalid_timing R timing
  | timing_not_an_object :
      Js.typeof_object timing = false -> invalid_timing R timing
  | timing_without_type :
      Js.truthy (Js.prop timing "type") = false -> invalid_timing R timing
  | timing_unsupported :
      (forall variant, In variant timing_types ->
                       Js.prop timing "type" <> JStr variant) ->
      invalid_timing R timing
  | timing_natural :
      Js.prop timing "type" = JStr "natural" -> invalid_timing R timing
  | timing_delay seconds :
      Js.prop timing "type" = JStr "delay" ->
      seconds = Number_of R (Js.prop timing "seconds") ->
      Js.isFinite seconds = false \/ PrimFloat.leb seconds PrimFloat.zero = true ->
      invalid_timing R timing
  | timing_datetime when :
      Js.prop timing "type" = JStr "datetime" ->
      when = Js.prop timing "when" ->
      Js.truthy when = false \/ Date_parse_of R when = None ->
      invalid_timing R timing.

Ltac run := unfold bind, read, modify, ret, throw, Date_now; cbn beta iota.

(** Split a conjunction into its conjuncts, and nothing else. *)
Ltac conjuncts := repeat match goal with |- _ /\ _ => split end.

(** Projections of updated worlds. *)
Ltac fields :=
  cbn [storage pendingAlarmIso lastAlarmIso localTimers clock clock_reads
       uuids uuid_reads setAlarm durableAlarm microtasks timers timer_seq
       tasks lastRuns index events
       set_storage set_pendingAlarmIso set_lastAlarmIso set_clock_reads
       set_uuid_reads set_durableAlarm set_microtasks set_timers
       set_tasks set_lastRuns set_index set_events orb andb negb] in *.

(** "Due at [effectiveNow]": enabled, with a [nextRun] that parses to an
    instant at or before it. *)
Definition is_due (R : Runtime) (effectiveNow : Z) (task : Task.t) : Prop :=
  Task.enabled task = true
  /\ Js.truthy (Task.nextRun task) = true
  /\ exists n, Date_parse_of R (Task.nextRun task) = Some n /\ n <= effectiveNow.

Definition due_in (R : Runtime) (effectiveNow : Z) (w : World) (id : string) : Prop :=
  exists task, tasks (storage w) !! id = Some task /\ is_due R effectiveNow task.

(** "The task recurs by [expr]": the cron of its timing when the timing is
    recurring, its [recurrence] property otherwise. *)
Definition recurrence_rule (task : Task.t) (expr : string) : Prop :=
  Js.truthy (Task.recurrence task) = true
  /\ (if Js.is_string (Js.prop (Task.timing task) "type") "recurring"
      then Js.prop (Task.timing task) "cron"
      else Task.recurrence task) = JStr expr.


(** The world in which the loop of [alarm] starts: the pending field
    cleared, the last fired timestamp recorded, the clock read twice. *)
Definition wake_entry (R : Runtime) (w : World) : World :=
  clock_read
    (set_lastAlarmIso
       (Some (match truthy_field (pendingAlarmIso w) with
              | Some iso => iso
              | None => toISOString R (clock w (clock_reads w))
              end))
       (clock_read (set_pendingAlarmIso None w))).

(** [effectiveNow]: the second reading of the cycle, plus the tolerance. *)
Definition wake_effectiveNow (w : World) : Z :=
  clock w (S (clock_reads w)) + 250.

(** What a visit of the loop leaves as it found it. *)
Definition visit_frame (w w' : World) : Prop :=
  index (storage w') = index (storage w)
  /\ events (storage w') = events (storage w)
  /\ clock w' = clock w
  /\ (clock_reads w <= clock_reads w')%nat.



(** A future candidate for the next wake: beyond [effectiveNow], and a
    valid time value. *)
Definition candidate (eff : Z) (e : option Z) : Prop :=
  forall n, e = Some n -> eff < n /\ valid_time n.

(** What the store holds of a task's schedule: [enabled], [nextRun] and
    [recurrence]. *)
Definition schedule_of (w : World) (id : string)
    : option (bool * JsVal * JsVal) :=
  (fun task => (Task.enabled task, Task.nextRun task, Task.recurrence task))
    <$> tasks (storage w) !! id.

(** *** The calendar of the sample runtime *)

(** Within one 400-year era: the days before year [y] of the era, and the
    year of the era a day falls in, as [civil_from_days] computes it. *)
Definition days_before_year (y : Z) : Z := 365 * y + y / 4 - y / 100.

Definition year_of_era_day (doe : Z) : Z :=
  (doe - doe / 1460 + doe / 36524 - doe / 146096) / 365.

(** Year [y] of the era is the year of its first and of its last day. *)
Definition year_ends_ok (y : Z) : bool :=
  (year_of_era_day (days_before_year y) =? y)
  && (year_of_era_day (days_before_year (y + 1) - 1) =? y).

(** [f] holds of the [n] integers from [z] on. *)
Fixpoint all_from (n : nat) (z : Z) (f : Z -> bool) : bool :=
  match n with
  | O => true
  | S n' => f z && all_from n' (z + 1) f
  end.

(** The year as [toISOString] prints it. *)
Definition year_text (y : Z) : string :=
  if (0 <=? y) && (y <=? 9999) then Iso8601.digits 4 y
  else (if y <? 0 then "-" else "+") ++ Iso8601.digits 6 (Z.abs y).

(** ** Strings *)

Lemma span_digits_inv s ds rest :
  JsString.span_digits s = (ds, rest) ->
  s = ds ++ rest /\ JsString.all_digits ds = true.
Proof.
  revert ds rest; induction s as [|c r IH]; intros ds rest; simpl.
  - intros [= <- <-]; auto.
  - destruct (JsString.is_digit c) eqn:Hc.
    + destruct (JsString.span_digits r) as [ds' rest'] eqn:Hr.
      intros [= <- <-]. destruct (IH _ _ eq_refl) as [-> Hall].
      simpl. rewrite Hc, Hall. auto.
    + intros [= <- <-]; auto.
Qed.

Lemma span_digits_stop ds c r :
  JsString.all_digits ds = true -> JsString.is_digit c = false ->
  JsString.span_digits (ds ++ String c r) = (ds, String c r).
Proof.
  intros Hall Hc; induction ds as [|d ds IH]; simpl in *.
  - now rewrite Hc.
  - apply andb_true_iff in Hall as [Hd Hall]. now rewrite Hd, IH.
Qed.

Lemma truthy_nonempty s : JsString.truthy s = true <-> s <> "".
Proof. destruct s; simpl; split; congruence. Qed.

Lemma match_every_n_minutes_shape s ds :
  match_every_n_minutes s = Some ds <-> every_n_minutes_shape s ds.
Proof.
  unfold match_every_n_minutes, every_n_minutes_shape; split.
  - destruct s as [|c1 [|c2 r]]; try discriminate.
    destruct (Ascii.eqb c1 "*") eqn:H1; try discriminate.
    destruct (Ascii.eqb c2 "/") eqn:H2; try discriminate.
    apply Ascii.eqb_eq in H1, H2; subst c1 c2; simpl.
    destruct (JsString.span_digits r) as [ds' rest] eqn:Hr.
    destruct (JsString.truthy ds') eqn:Ht; try discriminate.
    destruct (String.eqb rest " * * * *") eqn:He; try discriminate.
    intros [= ->]. apply String.eqb_eq in He; subst rest.
    apply span_digits_inv in Hr as [-> Hall].
    apply truthy_nonempty in Ht. auto.
  - intros (-> & Hne & Hall).
    change ("*/" ++ ds ++ " * * * *")
      with (String "*" (String "/" (ds ++ String " " "* * * *"))).
    cbn [Ascii.eqb Bool.eqb andb].
    rewrite span_digits_stop by (auto; reflexivity).
    apply truthy_nonempty in Hne. rewrite Hne. reflexivity.
Qed.

Lemma every_n_minutes_shape_unique s ds ds' :
  every_n_minutes_shape s ds -> every_n_minutes_shape s ds' -> ds = ds'.
Proof.
  intros H H'. apply match_every_n_minutes_shape in H, H'. congruence.
Qed.

Lemma trimStart_head s :
  match JsString.trimStart s with
  | String c _ => JsString.is_space c = false
  | EmptyString => True
  end.
Proof.
  induction s as [|c r IH]; simpl; auto.
  destruct (JsString.is_space c) eqn:Hc; auto.
Qed.

Lemma trimEnd_head c r :
  JsString.is_space c = false ->
  exists r', JsString.trimEnd (String c r) = String c r'.
Proof.
  intros Hc. simpl. rewrite Hc. destruct (JsString.trimEnd r); eauto.
Qed.

Lemma trimEnd_idempotent s :
  JsString.trimEnd (JsString.trimEnd s) = JsString.trimEnd s.
Proof.
  induction s as [|c r IH]; simpl; auto.
  destruct (JsString.trimEnd r) as [|c' r'] eqn:Hr.
  - destruct (JsString.is_space c) eqn:Hc; simpl; auto. now rewrite Hc.
  - change (JsString.trimEnd (String c (String c' r')))
      with (match JsString.trimEnd (String c' r') with
            | EmptyString =>
                if JsString.is_space c then EmptyString else String c EmptyString
            | r'' => String c r''
            end).
    now rewrite IH.
Qed.

Lemma trim_idempotent s : JsString.trim (JsString.trim s) = JsString.trim s.
Proof.
  unfold JsString.trim. pose proof (trimStart_head s) as Hh.
  destruct (JsString.trimStart s) as [|c r]; [reflexivity|].
  destruct (trimEnd_head c r Hh) as [r' Hr']. rewrite Hr'.
  cbn [JsString.trimStart]. rewrite Hh, <- Hr'. apply trimEnd_idempotent.
Qed.

Lemma new_Date_valid t : valid_time t -> new_Date t = ValidDate t.
Proof.
  unfold valid_time, new_Date, valid_timeb. intros [H1 H2].
  apply Z.leb_le in H1, H2. now rewrite H1, H2.
Qed.

Lemma new_Date_invalid t : ~ valid_time t -> new_Date t = InvalidDate.
Proof.
  unfold valid_time, new_Date, valid_timeb. intros H.
  destruct (Z.leb_spec (- MAX_TIME) t), (Z.leb_spec t MAX_TIME); simpl; auto; lia.
Qed.

(** ** RecurrenceEngine *)

Lemma computeNext_supported expr ds from :
  every_n_minutes_shape (JsString.trim expr) ds ->
  0 < JsString.decimal ds < INFINITY_FROM ->
  computeNextFromSimpleCron expr from =
    Some (match getTime from with
          | Some t => new_Date (t + JsString.decimal ds * 60000)
          | None => InvalidDate
          end).
Proof.
  intros Hs [Hpos Hfin]. unfold computeNextFromSimpleCron, Number_of_digits.
  apply match_every_n_minutes_shape in Hs. rewrite Hs.
  apply Z.ltb_lt in Hfin. rewrite Hfin.
  destruct (Z.leb_spec (JsString.decimal ds) 0); [lia|].
  now destruct (getTime from).
Qed.

Lemma computeNext_null expr from :
  computeNextFromSimpleCron expr from = None <-> ~ supported_cron expr.
Proof.
  unfold supported_cron; split.
  - intros Hnone (ds & Hs & Hn).
    rewrite (computeNext_supported _ _ _ Hs Hn) in Hnone. discriminate.
  - intros Hno. unfold computeNextFromSimpleCron, Number_of_digits.
    destruct (match_every_n_minutes (JsString.trim expr)) as [ds|] eqn:Hm; auto.
    apply match_every_n_minutes_shape in Hm.
    destruct (Z.ltb_spec (JsString.decimal ds) INFINITY_FROM); auto.
    destruct (Z.leb_spec (JsString.decimal ds) 0); auto.
    exfalso; apply Hno; exists ds; split; auto; lia.
Qed.

(** C3, as amended.  When the trimmed [expr] has the shape [*/N * * * *] with
    [N] positive and finite as a Number, and the instant [from + N] minutes is
    within the range of a [Date], [computeNextFromSimpleCron(expr, from)] is
    that instant; and the result is [null] exactly when [expr] is not such an
    expression. *)
Theorem computeNext_every_n_minutes (expr : string) (from : Z) :
  (forall ds,
      every_n_minutes_shape (JsString.trim expr) ds ->
      0 < JsString.decimal ds < INFINITY_FROM ->
      valid_time (from + JsString.decimal ds * 60000) ->
      computeNextFromSimpleCron expr (ValidDate from)
      = Some (ValidDate (from + JsString.decimal ds * 60000)))
  /\ (computeNextFromSimpleCron expr (ValidDate from) = None
      <-> ~ supported_cron expr).
Proof.
  split; [|apply computeNext_null].
  intros ds Hs Hn Hv. rewrite (computeNext_supported _ _ _ Hs Hn); simpl.
  now rewrite new_Date_valid.
Qed.

(** C3 as stated fails: at [*/200000000000 * * * *] the expression has the
    shape with [N = 200000000000], positive and finite, and from the epoch
    the result is neither [null] nor the instant [from + N] minutes but an
    invalid date. *)
Lemma computeNext_out_of_range :
  every_n_minutes_shape (JsString.trim "*/200000000000 * * * *") "200000000000"
  /\ 0 < JsString.decimal "200000000000" < INFINITY_FROM
  /\ valid_time 0
  /\ computeNextFromSimpleCron "*/200000000000 * * * *" (ValidDate 0)
     = Some InvalidDate
  /\ computeNextFromSimpleCron "*/200000000000 * * * *" (ValidDate 0)
     <> Some (ValidDate (0 + 200000000000 * 60000)).
Proof.
  split; [|split; [|split; [|split]]].
  - split; [reflexivity|]. split; [discriminate|reflexivity].
  - split; vm_compute; reflexivity.
  - split; vm_compute; discriminate.
  - vm_compute. reflexivity.
  - vm_compute. discriminate.
Qed.

(** ** EventLog *)

Lemma last_entries_skipn {A} (n : nat) (l : list A) :
  last_entries n l = skipn (length l - n) l.
Proof.
  unfold last_entries. rewrite firstn_rev. apply rev_involutive.
Qed.

Lemma appendEvents_run batch w :
  batch <> [] ->
  appendEvents batch w
  = (Ok tt,
     set_storage
       (set_events (Some (last_entries EVENT_HISTORY_LIMIT (event_log w ++ batch)))) w).
Proof.
  intros Hne. unfold appendEvents. destruct batch as [|e batch]; [congruence|].
  unfold bind, read, modify, event_log. cbn beta iota.
  rewrite last_entries_skipn.
  set (merged := (default [] (events (storage w)) ++ e :: batch)%list).
  destruct (Nat.leb_spec (length merged) EVENT_HISTORY_LIMIT) as [Hle|Hgt]; auto.
  replace (length merged - EVENT_HISTORY_LIMIT)%nat with 0%nat by lia.
  reflexivity.
Qed.

(** C6.  After [appendEvents] of a non-empty batch the stored log is the
    last 120 entries of the prior log followed by the batch: it has at most
    120 entries, and what was dropped is a prefix, the oldest entries. *)
Theorem appendEvents_keeps_last (batch : list TaskEvent.t) (w : World) :
  batch <> [] ->
  exists w',
    appendEvents batch w = (Ok tt, w')
    /\ events (storage w')
       = Some (last_entries EVENT_HISTORY_LIMIT (event_log w ++ batch))
    /\ (length (event_log w') <= EVENT_HISTORY_LIMIT)%nat
    /\ (exists dropped, (event_log w ++ batch = dropped ++ event_log w')%list)
    /\ tasks (storage w') = tasks (storage w)
    /\ index (storage w') = index (storage w).
Proof.
  intros Hne. eexists; split; [apply appendEvents_run, Hne|].
  unfold event_log at 2 3; simpl.
  repeat split; auto.
  - rewrite last_entries_skipn, length_skipn. lia.
  - exists (firstn (length (event_log w ++ batch) - EVENT_HISTORY_LIMIT)
              (event_log w ++ batch)).
    rewrite last_entries_skipn. symmetry. apply firstn_skipn.
Qed.

Lemma appendEvents_keeps_last_witness :
  exists w',
    appendEvents [Sample.event 120; Sample.event 121]
      (Sample.world (Sample.logged 120) 0) = (Ok tt, w')
    /\ length (event_log w') = 120%nat
    /\ List.map TaskEvent.id (firstn 1 (event_log w')) = ["event-2"]
    /\ List.map TaskEvent.id (skipn 118 (event_log w')) = ["event-120"; "event-121"].
Proof.
  destruct (appendEvents_keeps_last [Sample.event 120; Sample.event 121]
              (Sample.world (Sample.logged 120) 0))
    as (w' & Hrun & Hlog & _); [discriminate|].
  exists w'; split; [exact Hrun|].
  unfold event_log at 1 2 3. rewrite Hlog. vm_compute. auto.
Defined.

Lemma getEvents_filter R since w :
  getEvents R since w
  = (Ok (match truthy_field since with
         | None => event_log w
         | Some s =>
             match Date_parse R s with
             | None => event_log w
             | Some t =>
                 List.filter
                   (fun evt =>
                      match Date_parse R (TaskEvent.occurredAt evt) with
                      | Some ts => t <? ts
                      | None => false
                      end) (event_log w)
             end
         end), w).
Proof.
  unfold getEvents, bind, read, event_log; cbn beta iota.
  destruct (truthy_field since) as [s|]; auto.
  destruct (Date_parse R s); auto.
Qed.

Lemma truthy_field_parsed R s t :
  Date_parse R "" = None -> Date_parse R s = Some t ->
  truthy_field (Some s) = Some s.
Proof.
  intros He Hs. destruct s; simpl; auto. congruence.
Qed.

(** C7.  With a cursor that parses to the instant [since], [getEvents]
    returns exactly the logged events that occurred strictly after [since],
    in the order of the log; storage is not touched.  ([Date.parse] of the
    empty string is NaN.) *)
Theorem getEvents_strictly_newer (R : Runtime) (w : World) (cursor : string) (since : Z) :
  Date_parse R "" = None ->
  Date_parse R cursor = Some since ->
  exists result,
    getEvents R (Some cursor) w = (Ok result, w)
    /\ selection (occurred_after R since) (event_log w) result
    /\ (forall evt, In evt result <-> In evt (event_log w) /\ occurred_after R since evt).
Proof.
  intros He Hs. eexists; split.
  { rewrite getEvents_filter, (truthy_field_parsed R cursor since He Hs), Hs.
    reflexivity. }
  split.
  - induction (event_log w) as [|e l IH]; simpl; [constructor|].
    destruct (Date_parse R (TaskEvent.occurredAt e)) as [ts|] eqn:Hp.
    + destruct (Z.ltb_spec since ts).
      * constructor; auto. exists ts; auto.
      * constructor; auto. intros (ts' & Hp' & Hlt). rewrite Hp in Hp'.
        injection Hp' as <-. lia.
    + constructor; auto. intros (ts' & Hp' & _). congruence.
  - intros evt. rewrite filter_In. unfold occurred_after.
    split; intros [Hin Hafter]; split; auto.
    + destruct (Date_parse R (TaskEvent.occurredAt evt)) as [ts|]; [|discriminate].
      exists ts; split; auto. now apply Z.ltb_lt.
    + destruct Hafter as (ts & -> & Hlt). now apply Z.ltb_lt.
Qed.

Lemma getEvents_strictly_newer_witness :
  exists result,
    getEvents Iso8601.runtime (Some "2023-11-14T22:13:21.000Z")
      (Sample.world (Sample.logged 4) 0)
    = (Ok result, Sample.world (Sample.logged 4) 0)
    /\ List.map TaskEvent.id result = ["event-2"; "event-3"].
Proof.
  destruct (getEvents_strictly_newer Iso8601.runtime
              (Sample.world (Sample.logged 4) 0)
              "2023-11-14T22:13:21.000Z" (Sample.now + 1000))
    as (result & Hrun & _); [reflexivity | reflexivity |].
  exists result; split; [exact Hrun|].
  vm_compute in Hrun. injection Hrun as <-. reflexivity.
Defined.

(** C10.  With a cursor that does not parse, [getEvents] returns the whole
    stored log. *)
Theorem getEvents_unparsable_cursor (R : Runtime) (w : World) (cursor : string) :
  Date_parse R cursor = None ->
  getEvents R (Some cursor) w = (Ok (event_log w), w).
Proof.
  intros Hs. rewrite getEvents_filter. unfold truthy_field.
  destruct (JsString.truthy cursor); auto. now rewrite Hs.
Qed.

Lemma getEvents_unparsable_cursor_witness :
  getEvents Iso8601.runtime (Some "yesterday") (Sample.world (Sample.logged 3) 0)
  = (Ok (List.map Sample.event [0; 1; 2]%nat), Sample.world (Sample.logged 3) 0).
Proof.
  apply (getEvents_unparsable_cursor Iso8601.runtime
           (Sample.world (Sample.logged 3) 0) "yesterday").
  reflexivity.
Defined.

(** ** Creating a task *)

Lemma is_string_true v s : Js.is_string v s = true <-> v = JStr s.
Proof.
  destruct v; simpl; try (split; discriminate).
  rewrite String.eqb_eq. split; congruence.
Qed.

Lemma includes_type_true v :
  includes_type v = true <-> exists variant, In variant timing_types /\ v = JStr variant.
Proof.
  unfold includes_type. rewrite existsb_exists.
  split; intros (x & Hin & H); exists x; split; auto; now apply is_string_true.
Qed.

Lemma validate_timing_rejects R timing :
  invalid_timing R timing <->
  exists rejection, validate_timing R timing = Some rejection.
Proof.
  unfold validate_timing.
  destruct (Js.truthy timing) eqn:Ht; cbn [negb orb];
    [|split; [eauto | intros _; now apply timing_missing]].
  destruct (Js.typeof_object timing) eqn:Ho; cbn [negb orb];
    [|split; [eauto | intros _; now apply timing_not_an_object]].
  destruct (Js.truthy (Js.prop timing "type")) eqn:Hty; cbn [negb orb];
    [|split; [eauto | intros _; now apply timing_without_type]].
  destruct (includes_type (Js.prop timing "type")) eqn:Hin; cbn [negb].
  2:{ split; [eauto|]. intros _. apply timing_unsupported. intros v Hv He.
      assert (includes_type (Js.prop timing "type") = true)
        by (apply includes_type_true; eauto). congruence. }
  apply includes_type_true in Hin as (variant & Hin & Hv). rewrite Hv.
  assert (variant = "datetime" \/ variant = "delay" \/ variant = "natural"
          \/ variant = "recurring") as Hcase by (simpl in Hin; intuition).
  destruct Hcase as [-> | [-> | [-> | ->]]]; cbn [Js.is_string String.eqb Ascii.eqb Bool.eqb andb].
  - (* datetime *)
    destruct (Js.truthy (Js.prop timing "when")) eqn:Hw; cbn [negb orb].
    + destruct (Date_parse_of R (Js.prop timing "when")) as [t|] eqn:Hp.
      * rewrite bool_decide_eq_true_2 by eauto. cbn [negb].
        split; [|intros [? ?]; discriminate].
        intros [H|H|H|H|H|secs H|when H Hwhen [Hf|Hn]];
          try subst when; try congruence.
        exfalso; eapply H; eauto.
      * rewrite bool_decide_eq_false_2 by (intros [? ?]; discriminate). cbn [negb].
        split; [eauto|]. intros _. eapply timing_datetime; eauto.
    + split; [eauto|]. intros _. eapply timing_datetime; eauto.
  - (* delay *)
    destruct (Js.isFinite (Number_of R (Js.prop timing "seconds"))) eqn:Hf;
      cbn [negb orb].
    + destruct (PrimFloat.leb (Number_of R (Js.prop timing "seconds")) PrimFloat.zero)
        eqn:Hle.
      * split; [eauto|]. intros _. eapply timing_delay; eauto.
      * split; [|intros [? ?]; discriminate].
        intros [H|H|H|H|H|secs' H Hs [Hf'|Hn]|when H];
          try subst secs'; try congruence.
        exfalso; eapply H; eauto.
    + split; [eauto|]. intros _. eapply timing_delay; eauto.
  - (* natural *)
    split; [eauto|]. intros _. now apply timing_natural.
  - (* recurring *)
    split; [|intros [? ?]; discriminate].
    intros [H|H|H|H|H|secs H|when H]; try congruence.
    exfalso; eapply H; eauto.
Qed.

Lemma validate_timing_status R timing rejection :
  validate_timing R timing = Some rejection -> status rejection = 400.
Proof.
  unfold validate_timing.
  repeat match goal with
         | |- context [if ?c then _ else _] => destruct c
         end; intros [= <-]; reflexivity.
Qed.

Lemma get_prop body k :
  Js.get body k = inr (Js.prop body k) \/ Js.get body k = inl TypeError.
Proof. destruct body; simpl; auto. Qed.

Lemma create_task_try_rejected R note body w rejection :
  Js.get body "timing" = inr (Js.prop body "timing") ->
  validate_timing R (Js.prop body "timing") = Some rejection ->
  create_task_try R note body w = (Ok rejection, w).
Proof.
  intros Hget Hrej. unfold create_task_try, bind. rewrite Hget.
  unfold lift, ret. now rewrite Hrej.
Qed.

(** C4.  A create request whose timing is missing or invalid, of an
    unsupported variant, of variant [natural], a delay with seconds that are
    not finite or not positive, or a datetime that does not parse, is
    answered with status 400, and the world is left as it was: no task
    record, no index entry and no event is written, and no wake is armed. *)
Theorem create_task_rejects_invalid_timing
    (R : Runtime) (note : Task.t -> string) (body : JsVal) (w : World) :
  invalid_timing R (Js.prop body "timing") ->
  exists response,
    create_task R note (Some body) w = (Ok response, w)
    /\ status response = 400.
Proof.
  intros Hinv. apply validate_timing_rejects in Hinv as [rejection Hrej].
  unfold create_task. destruct (get_prop body "timing") as [Hget|Hget].
  - rewrite (create_task_try_rejected _ _ _ _ _ Hget Hrej).
    exists rejection; split; [reflexivity|].
    eapply validate_timing_status; eauto.
  - unfold create_task_try, bind. rewrite Hget. unfold lift, throw.
    eexists; split; reflexivity.
Qed.

Lemma create_task_rejects_invalid_timing_witness :
  let w := Sample.world (Sample.logged 2) 1 in
  let rejected body :=
    exists response,
      create_task Iso8601.runtime Sample.creation_note (Some body) w
      = (Ok response, w) /\ status response = 400 in
  rejected Sample.natural_request
  /\ rejected Sample.zero_delay_request
  /\ rejected Sample.vague_datetime_request
  /\ rejected (JObj [("title", JStr "Untimed")]).
Proof.
  cbv zeta. repeat split.
  - apply create_task_rejects_invalid_timing.
    apply timing_natural. reflexivity.
  - apply create_task_rejects_invalid_timing.
    eapply timing_delay; [reflexivity | reflexivity | right; reflexivity].
  - apply create_task_rejects_invalid_timing.
    eapply timing_datetime; [reflexivity | reflexivity | right; reflexivity].
  - apply create_task_rejects_invalid_timing.
    apply timing_missing. reflexivity.
Defined.

Lemma supported_cron_trim cron :
  supported_cron (JsString.trim cron) <-> supported_cron cron.
Proof. unfold supported_cron. now rewrite trim_idempotent. Qed.

Lemma prop_is_object v k s :
  Js.prop v k = JStr s -> exists fields, v = JObj fields.
Proof. destruct v; simpl; try discriminate; eauto. Qed.

Lemma validate_timing_recurring R timing :
  Js.prop timing "type" = JStr "recurring" -> validate_timing R timing = None.
Proof.
  intros Hty. destruct (prop_is_object _ _ _ Hty) as [fields ->].
  unfold validate_timing. rewrite Hty. reflexivity.
Qed.

Lemma initial_nextRun_unsupported R timing cron w :
  Js.prop timing "type" = JStr "recurring" ->
  Js.prop timing "cron" = JStr cron ->
  ~ supported_cron cron ->
  initial_nextRun R timing w = (Ok JUndefined, clock_read w).
Proof.
  intros Hty Hcron Hno. unfold initial_nextRun. rewrite Hty, Hcron.
  cbn [Js.is_string String.eqb Ascii.eqb Bool.eqb].
  unfold Date_current. run.
  assert (computeNextFromSimpleCron (JsString.trim cron)
            (ValidDate (clock w (clock_reads w))) = None) as ->
    by (apply computeNext_null; now rewrite supported_cron_trim).
  reflexivity.
Qed.

(** C5.  A create request with timing [{type: "recurring", cron}] whose
    [cron] is not a supported every-N-minutes expression is answered with
    status 201 and the task; the task is stored under its id and the id is
    appended to the index; the task has no [nextRun], and no wake is armed
    for it; a [created] event is appended to the log. *)
Theorem create_task_unsupported_cron
    (R : Runtime) (note : Task.t -> string) (body : JsVal) (cron : string) (w : World) :
  Js.prop (Js.prop body "timing") "type" = JStr "recurring" ->
  Js.prop (Js.prop body "timing") "cron" = JStr cron ->
  ~ supported_cron cron ->
  exists task w' evt,
    create_task R note (Some body) w
    = (Ok {| status := 201; payload := TaskPayload task |}, w')
    /\ Task.id task = uuids w (uuid_reads w)
    /\ Task.timing task = Js.prop body "timing"
    /\ Task.nextRun task = JUndefined
    /\ tasks (storage w') = <[Task.id task := task]> (tasks (storage w))
    /\ index (storage w')
       = Some (default [] (index (storage w)) ++ [Task.id task])%list
    /\ event_log w' = last_entries EVENT_HISTORY_LIMIT (event_log w ++ [evt])
    /\ TaskEvent.kind evt = created /\ TaskEvent.taskId evt = Task.id task
    /\ pendingAlarmIso w' = pendingAlarmIso w
    /\ durableAlarm w' = durableAlarm w
    /\ microtasks w' = microtasks w
    /\ timers w' = timers w.
Proof.
  intros Hty Hcron Hno.
  assert (Js.get body "timing" = inr (Js.prop body "timing")) as Hget.
  { destruct body; simpl in *; try discriminate; reflexivity. }
  unfold create_task, create_task_try, bind at 1. rewrite Hget.
  unfold lift, ret at 1. rewrite (validate_timing_recurring R _ Hty).
  unfold bind at 1, randomUUID.
  unfold bind at 1, Date_current, toISOString_of. run.
  erewrite initial_nextRun_unsupported; eauto.
  cbn [Js.truthy Task.nextRun].
  rewrite appendEvents_run by discriminate.
  do 3 eexists. split; [reflexivity|].
  unfold event_log. fields. cbn [Task.id Task.timing Task.nextRun created_event
    TaskEvent.kind TaskEvent.taskId].
  repeat split; reflexivity.
Qed.

Lemma create_task_unsupported_cron_witness :
  exists task w',
    create_task Iso8601.runtime Sample.creation_note (Some Sample.daily_request)
      (Sample.world Sample.empty_storage 1)
    = (Ok {| status := 201; payload := TaskPayload task |}, w')
    /\ Task.nextRun task = JUndefined
    /\ tasks (storage w') !! "uuid-0" = Some task
    /\ index (storage w') = Some ["uuid-0"]
    /\ durableAlarm w' = None /\ pendingAlarmIso w' = None.
Proof.
  destruct (create_task_unsupported_cron Iso8601.runtime Sample.creation_note
              Sample.daily_request "0 9 * * *"
              (Sample.world Sample.empty_storage 1))
    as (task & w' & evt & Hrun & Hid & _ & Hnext & Htasks & Hindex & _ & _ & _
        & Hpending & Hdurable & _);
    [reflexivity | reflexivity | |].
  - apply (computeNext_null "0 9 * * *" (ValidDate 0)). reflexivity.
  - exists task, w'. rewrite Htasks, Hindex, Hpending, Hdurable, Hid.
    repeat split; auto.
Defined.

(** ** AlarmScheduler *)

Lemma arm_fallback_pending t iso w :
  pendingAlarmIso (snd (arm_fallback t iso w)) = pendingAlarmIso w.
Proof.
  unfold arm_fallback. run.
  destruct (t - clock w (clock_reads w) <=? 0); simpl; auto.
  destruct (same_iso (lastAlarmIso w) iso); reflexivity.
Qed.

Lemma truthy_field_some f p :
  truthy_field f = Some p <-> f = Some p /\ p <> "".
Proof.
  unfold truthy_field. destruct f as [s|]; [|split; [discriminate|intros [? _]; discriminate]].
  destruct (JsString.truthy s) eqn:Ht.
  - apply truthy_nonempty in Ht. split.
    + intros [= ->]; auto.
    + intros [[= ->] _]; auto.
  - split; [discriminate|]. intros [[= ->] Hne].
    apply truthy_nonempty in Hne. congruence.
Qed.

Lemma same_iso_true f iso : same_iso f iso = true <-> f = Some iso.
Proof.
  unfold same_iso. destruct f as [s|]; [|split; discriminate].
  rewrite String.eqb_eq. split; congruence.
Qed.

Lemma pending_blocks_true R w candidate :
  pending_blocks R w candidate = true <-> pending_not_later R w candidate.
Proof.
  unfold pending_blocks, pending_not_later. split.
  - destruct (truthy_field (pendingAlarmIso w)) as [p|] eqn:Hp; [|discriminate].
    apply truthy_field_some in Hp as [Hp Hne].
    destruct (Date_parse R p) as [existing|] eqn:He; [|discriminate].
    intros Hle%Z.leb_le. exists p, existing; auto.
  - intros (p & existing & Hp & Hne & He & Hle).
    assert (truthy_field (pendingAlarmIso w) = Some p) as ->
      by (apply truthy_field_some; auto).
    rewrite He. now apply Z.leb_le.
Qed.

Lemma scheduleAlarm_run R w candidate :
  scheduleAlarm R (ValidDate candidate) w
  = let iso := toISOString R candidate in
    if (candidate <=? clock w (clock_reads w) + 50)
       || pending_blocks R w candidate || same_iso (lastAlarmIso w) iso
    then (Ok tt, clock_read w)
    else
      let w1 := set_pendingAlarmIso (Some iso) (clock_read w) in
      match setAlarm w with
      | SetAlarmWorks => (Ok tt, set_durableAlarm (Some candidate) w1)
      | SetAlarmThrows | SetAlarmMissing => arm_fallback candidate iso w1
      end.
Proof.
  unfold scheduleAlarm, pending_blocks, clock_read. run.
  destruct (candidate <=? clock w (clock_reads w) + 50); [reflexivity|].
  fields.
  destruct (match truthy_field (pendingAlarmIso w) with
            | Some p => match Date_parse R p with
                        | Some existing => existing <=? candidate
                        | None => false
                        end
            | None => false
            end); [reflexivity|].
  fields.
  destruct (same_iso (lastAlarmIso w) (toISOString R candidate)); [reflexivity|].
  fields. now destruct (setAlarm w).
Qed.

(** C8.  [scheduleAlarm(candidate)] reads the clock and does nothing else
    (the pending field stays, no durable alarm, microtask or timer is armed)
    when the candidate is at most [now + 50], or a pending timestamp exists
    that is not later than the candidate, or the candidate is the timestamp
    that fired last.  Whenever the call does change the pending field, it sets
    it to the candidate, and the candidate is strictly earlier than any
    pending timestamp there was. *)
Theorem scheduleAlarm_dedup (R : Runtime) (w : World) (candidate : Z) :
  let now := clock w (clock_reads w) in
  let iso := toISOString R candidate in
  (candidate <= now + 50
   \/ pending_not_later R w candidate
   \/ lastAlarmIso w = Some iso ->
   scheduleAlarm R (ValidDate candidate) w = (Ok tt, clock_read w))
  /\ (forall w',
        w' = snd (scheduleAlarm R (ValidDate candidate) w) ->
        pendingAlarmIso w' <> pendingAlarmIso w ->
        pendingAlarmIso w' = Some iso
        /\ now + 50 < candidate
        /\ forall p existing,
             pendingAlarmIso w = Some p -> p <> "" ->
             Date_parse R p = Some existing -> candidate < existing).
Proof.
  intros now iso. rewrite scheduleAlarm_run. cbn zeta. fold now iso.
  destruct (Z.leb_spec candidate (now + 50)) as [Hj|Hj];
    [split; [reflexivity | intros w' -> Hch; now elim Hch]|].
  destruct (pending_blocks R w candidate) eqn:Hb;
    [split; [reflexivity | intros w' -> Hch; now elim Hch]|].
  destruct (same_iso (lastAlarmIso w) iso) eqn:Hl;
    [split; [reflexivity | intros w' -> Hch; now elim Hch]|].
  cbn [orb]. split.
  - intros [H|[H|H]]; [lia| |].
    + apply pending_blocks_true in H. congruence.
    + apply same_iso_true in H. congruence.
  - intros w' -> _. split; [|split; [lia|]].
    + destruct (setAlarm w); simpl; auto; now rewrite arm_fallback_pending.
    + intros p existing Hp Hne He.
      destruct (Z.lt_ge_cases candidate existing) as [|Hge]; auto.
      assert (pending_blocks R w candidate = true) as Hb'
        by (apply pending_blocks_true; exists p, existing; auto).
      congruence.
Qed.

(** On the sample host (clock at [Sample.now], one millisecond a reading):
    a candidate 40 ms ahead is skipped, and so is one that a pending
    timestamp precedes; a candidate a minute ahead with nothing pending is
    taken. *)
Lemma scheduleAlarm_dedup_witness :
  scheduleAlarm Iso8601.runtime (ValidDate (Sample.now + 40))
    (Sample.world Sample.empty_storage 1)
  = (Ok tt, clock_read (Sample.world Sample.empty_storage 1))
  /\ (let w := set_pendingAlarmIso (Some (Iso8601.print (Sample.now + 1000)))
                 (Sample.world Sample.empty_storage 1) in
      scheduleAlarm Iso8601.runtime (ValidDate (Sample.now + 60000)) w
      = (Ok tt, clock_read w))
  /\ pendingAlarmIso
       (snd (scheduleAlarm Iso8601.runtime (ValidDate (Sample.now + 60000))
               (Sample.world Sample.empty_storage 1)))
     = Some "2023-11-14T22:14:20.000Z".
Proof.
  split; [|split].
  - pose proof (scheduleAlarm_dedup Iso8601.runtime
                  (Sample.world Sample.empty_storage 1) (Sample.now + 40)) as H.
    cbv zeta in H. apply H. left. vm_compute. discriminate.
  - pose proof (scheduleAlarm_dedup Iso8601.runtime
                  (set_pendingAlarmIso (Some (Iso8601.print (Sample.now + 1000)))
                     (Sample.world Sample.empty_storage 1))
                  (Sample.now + 60000)) as H.
    cbv zeta in H. apply H. right; left.
    exists (Iso8601.print (Sample.now + 1000)), (Sample.now + 1000).
    repeat split; try (vm_compute; congruence).
  - pose proof (scheduleAlarm_dedup Iso8601.runtime
                  (Sample.world Sample.empty_storage 1) (Sample.now + 60000)) as H.
    cbv zeta in H. destruct H as [_ H].
    destruct (H _ eq_refl) as [Hset _]; [vm_compute; discriminate|].
    rewrite Hset. reflexivity.
Defined.

(** ** The sample runtime reads back what it prints *)

Lemma all_from_spec n z f :
  all_from n z f = true -> forall i, z <= i < z + Z.of_nat n -> f i = true.
Proof.
  revert z. induction n as [|n IH]; intros z H i Hi; [lia|].
  cbn [all_from] in H. apply andb_true_iff in H as [Hz Hrest].
  destruct (Z.eq_dec i z) as [->|Hne]; auto.
  apply (IH (z + 1)); auto. lia.
Qed.

Lemma year_ends : all_from 400 0 year_ends_ok = true.
Proof. vm_compute. reflexivity. Qed.

Lemma year_of_era_day_mono a b :
  0 <= a <= b -> b < 146097 -> year_of_era_day a <= year_of_era_day b.
Proof.
  intros Hab Hb. unfold year_of_era_day. apply Z.div_le_mono; [lia|].
  Z.div_mod_to_equations. lia.
Qed.

Lemma days_before_year_next y :
  0 <= y -> days_before_year y < days_before_year (y + 1).
Proof. unfold days_before_year. intros. Z.div_mod_to_equations. lia. Qed.

(** Every day of the era falls in one of its 400 years. *)
Lemma find_year doe (n : nat) :
  0 <= doe < days_before_year (Z.of_nat n) ->
  exists y, 0 <= y < Z.of_nat n
            /\ days_before_year y <= doe < days_before_year (y + 1).
Proof.
  induction n as [|n IH]; intros Hdoe.
  - change (days_before_year (Z.of_nat 0)) with 0 in Hdoe. lia.
  - rewrite Nat2Z.inj_succ in *. unfold Z.succ in *.
    destruct (Z.lt_ge_cases doe (days_before_year (Z.of_nat n))) as [Hlt|Hge].
    + destruct IH as (y & Hy & Hin); [lia|]. exists y. split; [lia|exact Hin].
    + exists (Z.of_nat n). split; lia.
Qed.

Lemma year_of_era_day_spec doe :
  0 <= doe < 146097 ->
  0 <= year_of_era_day doe <= 399
  /\ 0 <= doe - days_before_year (year_of_era_day doe) <= 365.
Proof.
  intros Hdoe. destruct (Z.eq_dec doe 146096) as [->|Hlast]; [now vm_compute|].
  destruct (find_year doe 400) as (y & Hy & Hin).
  { change (days_before_year (Z.of_nat 400)) with 146096. lia. }
  pose proof (all_from_spec _ _ _ year_ends y ltac:(lia)) as Hends.
  apply andb_true_iff in Hends as [Hfirst Hlast'].
  apply Z.eqb_eq in Hfirst, Hlast'.
  assert (0 <= days_before_year y
          /\ days_before_year (y + 1) <= 146096
          /\ days_before_year (y + 1) - days_before_year y <= 366)
    as (Hthis & Hnext & Hlen)
    by (unfold days_before_year; Z.div_mod_to_equations; lia).
  assert (year_of_era_day doe = y) as ->; [|split; lia].
  apply Z.le_antisymm.
  - etransitivity; [apply (year_of_era_day_mono doe (days_before_year (y + 1) - 1)); lia|].
    now rewrite Hlast'.
  - etransitivity; [|apply (year_of_era_day_mono (days_before_year y) doe); lia].
    now rewrite Hfirst.
Qed.

Lemma civil_round_trip z :
  let '(y, m, d) := Iso8601.civil_from_days z in
  Iso8601.days_from_civil y m d = z
  /\ 1 <= m <= 12 /\ 1 <= d <= 31
  /\ (z + 719468) / 146097 * 400 <= y <= (z + 719468) / 146097 * 400 + 400.
Proof.
  unfold Iso8601.civil_from_days, Iso8601.days_from_civil. cbv zeta.
  set (era := (z + 719468) / 146097).
  set (doe := (z + 719468) - era * 146097).
  assert (0 <= doe < 146097) as Hdoe
    by (subst doe era; Z.div_mod_to_equations; lia).
  fold (year_of_era_day doe).
  destruct (year_of_era_day_spec doe Hdoe) as (Hyoe & Hdoy).
  set (yoe := year_of_era_day doe) in *. unfold days_before_year in Hdoy.
  set (doy := doe - (365 * yoe + yoe / 4 - yoe / 100)) in *.
  set (mp := (5 * doy + 2) / 153).
  assert (0 <= mp <= 11) as Hmp by (subst mp; Z.div_mod_to_equations; lia).
  assert (1 <= doy - (153 * mp + 2) / 5 + 1 <= 31) as Hd
    by (subst mp; Z.div_mod_to_equations; lia).
  set (d := doy - (153 * mp + 2) / 5 + 1) in *.
  set (m := if mp <? 10 then mp + 3 else mp - 9).
  assert (1 <= m <= 12 /\ (if 2 <? m then m - 3 else m + 9) = mp
          /\ (m <= 2 <-> 10 <= mp)) as (Hm & Hback & Hjan).
  { subst m. destruct (Z.ltb_spec mp 10).
    - destruct (Z.ltb_spec 2 (mp + 3)); lia.
    - destruct (Z.ltb_spec 2 (mp - 9)); lia. }
  rewrite Hback.
  assert ((if m <=? 2 then yoe + era * 400 + (if m <=? 2 then 1 else 0) - 1
           else yoe + era * 400 + (if m <=? 2 then 1 else 0)) = yoe + era * 400)
    as -> by (destruct (m <=? 2); lia).
  assert ((yoe + era * 400) / 400 = era) as ->
    by (rewrite Z.div_add, Z.div_small; lia).
  split; [|destruct (m <=? 2); lia].
  replace (yoe + era * 400 - era * 400) with yoe by lia.
  subst d doy doe. lia.
Qed.

Lemma append_cons c s r : (String c s ++ r = String c (s ++ r))%string.
Proof. reflexivity. Qed.

Lemma append_empty r : ("" ++ r = r)%string.
Proof. reflexivity. Qed.

Lemma append_assoc_string (a b c : string) : ((a ++ b) ++ c = a ++ (b ++ c))%string.
Proof.
  induction a as [|x a IH]; [reflexivity|].
  now rewrite !append_cons, IH.
Qed.

Lemma digit_char_spec d :
  0 <= d <= 9 ->
  JsString.is_digit (Iso8601.digit_char d) = true
  /\ Z.of_nat (nat_of_ascii (Iso8601.digit_char d)) - 48 = d
  /\ Iso8601.digit_char d <> "+"%char /\ Iso8601.digit_char d <> "-"%char.
Proof.
  intros Hd.
  assert (d = 0 \/ d = 1 \/ d = 2 \/ d = 3 \/ d = 4 \/ d = 5 \/ d = 6 \/ d = 7
          \/ d = 8 \/ d = 9) as Hcases by lia.
  repeat destruct Hcases as [->|Hcases]; try subst d;
    repeat split; try reflexivity; discriminate.
Qed.

Lemma read_digits_add k1 k2 acc s :
  Iso8601.read_digits (k1 + k2) acc s
  = match Iso8601.read_digits k1 acc s with
    | Some (v, r) => Iso8601.read_digits k2 v r
    | None => None
    end.
Proof.
  revert acc s. induction k1 as [|k1 IH]; intros acc s; [reflexivity|].
  cbn [Nat.add Iso8601.read_digits]. destruct s as [|c r]; [reflexivity|].
  destruct (JsString.is_digit c); [apply IH|reflexivity].
Qed.

Lemma read_digits_digits k n acc rest :
  0 <= n < 10 ^ Z.of_nat k ->
  Iso8601.read_digits k acc (Iso8601.digits k n ++ rest)
  = Some (acc * 10 ^ Z.of_nat k + n, rest).
Proof.
  revert n rest. induction k as [|k IH]; intros n rest Hn.
  - cbn. f_equal. f_equal. change (10 ^ Z.of_nat 0) with 1 in Hn. lia.
  - rewrite Nat2Z.inj_succ, Z.pow_succ_r in * by lia.
    cbn [Iso8601.digits]. rewrite append_assoc_string, append_cons, append_empty.
    rewrite <- Nat.add_1_r, read_digits_add.
    rewrite IH by (Z.div_mod_to_equations; lia).
    cbn [Iso8601.read_digits].
    destruct (digit_char_spec (n mod 10)) as (-> & -> & _);
      [Z.div_mod_to_equations; lia|].
    f_equal. f_equal. Z.div_mod_to_equations. lia.
Qed.

Lemma digits_head k n :
  0 <= n < 10 ^ Z.of_nat (S k) ->
  exists d r, 0 <= d <= 9 /\ Iso8601.digits (S k) n = String (Iso8601.digit_char d) r.
Proof.
  revert n. induction k as [|k IH]; intros n Hn.
  - exists (n mod 10), "". split; [Z.div_mod_to_equations; lia|reflexivity].
  - rewrite Nat2Z.inj_succ, Z.pow_succ_r in Hn by lia.
    destruct (IH (n / 10)) as (d & r & Hd & Hr); [Z.div_mod_to_equations; lia|].
    exists d, (r ++ String (Iso8601.digit_char (n mod 10)) "").
    split; auto. change (Iso8601.digits (S (S k)) n)
      with (Iso8601.digits (S k) (n / 10) ++ String (Iso8601.digit_char (n mod 10)) "").
    now rewrite Hr.
Qed.

Lemma read_year_unsigned c r :
  c <> "+"%char -> c <> "-"%char ->
  Iso8601.read_year (String c r) = Iso8601.read_digits 4 0 (String c r).
Proof.
  intros Hplus Hminus. unfold Iso8601.read_year.
  destruct c as [[] [] [] [] [] [] [] []]; try reflexivity; congruence.
Qed.

Lemma read_year_text y rest :
  -1000000 < y < 1000000 ->
  Iso8601.read_year (year_text y ++ rest) = Some (y, rest).
Proof.
  intros Hy. unfold year_text.
  destruct (Z.leb_spec 0 y) as [H0|H0]; [destruct (Z.leb_spec y 9999) as [H1|H1]|];
    cbn [andb].
  - destruct (digits_head 3 y) as (d & r & Hd & Hr); [simpl; lia|].
    destruct (digit_char_spec d Hd) as (_ & _ & Hp & Hm).
    pose proof (read_digits_digits 4 y 0 rest) as Hread.
    rewrite Hr in *. rewrite append_cons in *.
    rewrite read_year_unsigned by auto. rewrite Hread by (simpl; lia).
    reflexivity.
  - destruct (Z.ltb_spec y 0); [lia|].
    rewrite append_assoc_string, append_cons, append_empty.
    cbn [Iso8601.read_year]. rewrite read_digits_digits by (simpl; lia).
    f_equal. f_equal. lia.
  - destruct (Z.ltb_spec y 0); [|lia].
    rewrite append_assoc_string, append_cons, append_empty.
    cbn [Iso8601.read_year]. rewrite read_digits_digits by (simpl; lia).
    f_equal. f_equal. lia.
Qed.

Lemma print_text t :
  Iso8601.print t
  = let day := t / 86400000 in
    let ms := t mod 86400000 in
    let '(y, m, d) := Iso8601.civil_from_days day in
    (year_text y ++ String "-" (Iso8601.digits 2 m ++ String "-"
      (Iso8601.digits 2 d ++ String "T" (Iso8601.digits 2 (ms / 3600000)
        ++ String ":" (Iso8601.digits 2 (ms / 60000 mod 60) ++ String ":"
          (Iso8601.digits 2 (ms / 1000 mod 60) ++ String "."
            (Iso8601.digits 3 (ms mod 1000) ++ "Z")))))))%string.
Proof.
  unfold Iso8601.print, year_text. cbv zeta.
  now destruct (Iso8601.civil_from_days (t / 86400000)) as [[y m] d].
Qed.

Theorem iso8601_parse_print t : valid_time t -> Iso8601.parse (Iso8601.print t) = Some t.
Proof.
  intros Hv. rewrite print_text. cbv zeta.
  pose proof (civil_round_trip (t / 86400000)) as Hcal.
  destruct (Iso8601.civil_from_days (t / 86400000)) as [[y m] d].
  destruct Hcal as (Hdays & Hm & Hd & Hy).
  assert (-1000000 < y < 1000000) as Hyear.
  { unfold valid_time, MAX_TIME in Hv. Z.div_mod_to_equations. lia. }
  set (ms := t mod 86400000) in *.
  assert (0 <= ms < 86400000) as Hms by (subst ms; Z.div_mod_to_equations; lia).
  unfold Iso8601.parse.
  rewrite read_year_text by auto. cbn [mbind option_bind Iso8601.expect Ascii.eqb Bool.eqb].
  rewrite read_digits_digits by (simpl; lia).
  cbn [mbind option_bind Iso8601.expect Ascii.eqb Bool.eqb].
  rewrite read_digits_digits by (simpl; lia).
  cbn [mbind option_bind Iso8601.expect Ascii.eqb Bool.eqb].
  rewrite read_digits_digits by (simpl; Z.div_mod_to_equations; lia).
  cbn [mbind option_bind Iso8601.expect Ascii.eqb Bool.eqb].
  rewrite read_digits_digits by (simpl; Z.div_mod_to_equations; lia).
  cbn [mbind option_bind Iso8601.expect Ascii.eqb Bool.eqb].
  rewrite read_digits_digits by (simpl; Z.div_mod_to_equations; lia).
  cbn [mbind option_bind Iso8601.expect Ascii.eqb Bool.eqb].
  rewrite read_digits_digits by (simpl; Z.div_mod_to_equations; lia).
  cbn [mbind option_bind Iso8601.expect Ascii.eqb Bool.eqb JsString.truthy].
  rewrite !Z.mul_0_l, !Z.add_0_l, Hdays.
  assert (t / 86400000 * 86400000 + ms / 3600000 * 3600000
          + ms / 60000 mod 60 * 60000 + ms / 1000 mod 60 * 1000 + ms mod 1000 = t)
    as -> by (subst ms; Z.div_mod_to_equations; lia).
  assert (valid_timeb t = true) as ->.
  { unfold valid_timeb. destruct Hv as [H1 H2].
    apply Z.leb_le in H1, H2. now rewrite H1, H2. }
  repeat match goal with
         | |- context [?a <=? ?b] =>
             destruct (Z.leb_spec a b); [|Z.div_mod_to_equations; lia]
         end.
  reflexivity.
Qed.

Theorem iso8601_parse_valid s t : Iso8601.parse s = Some t -> valid_time t.
Proof.
  unfold Iso8601.parse. intros H.
  repeat (apply bind_Some in H as (? & _ & H);
          repeat match type of H with
                 | context [let (_, _) := ?p in _] => destruct p
                 end).
  destruct (JsString.truthy _); [discriminate|].
  match type of H with
  | (if ?c then _ else _) = _ => destruct c eqn:Hc; [|discriminate]
  end.
  injection H as <-. apply andb_true_iff in Hc as [_ Hc].
  unfold valid_timeb in Hc. apply andb_true_iff in Hc as [H1 H2].
  apply Z.leb_le in H1, H2. split; auto.
Qed.

(** ** The wake cycle in general *)

Lemma computeNext_valid_inv expr t nt :
  computeNextFromSimpleCron expr (ValidDate t) = Some (ValidDate nt) ->
  exists n, 0 < n /\ nt = t + n * 60000 /\ valid_time nt.
Proof.
  unfold computeNextFromSimpleCron.
  destruct (match_every_n_minutes (JsString.trim expr)) as [ds|]; [|discriminate].
  destruct (Number_of_digits ds) as [n|]; [|discriminate].
  destruct (Z.leb_spec n 0); [discriminate|]. simpl. unfold new_Date.
  destruct (valid_timeb (t + n * 60000)) eqn:Hv; [|discriminate].
  intros [= <-]. exists n. repeat split; auto;
    unfold valid_timeb in Hv; apply andb_true_iff in Hv as [H1 H2];
    apply Z.leb_le in H1, H2; lia.
Qed.

Section WakeCycle.
Variable R : Runtime.

Lemma advance_inv task e w task' e' note w' :
  advance R task e w = (Ok (task', e', note), w') ->
  (Js.truthy (Task.recurrence task) = false /\ w' = w
   /\ task' = Task.reschedule task false JUndefined /\ e' = e
   /\ note = "Task completed")
  \/ (exists expr,
        recurrence_rule task expr /\ w' = clock_read w
        /\ computeNextFromSimpleCron expr (ValidDate (clock w (clock_reads w)))
           = None
        /\ task' = Task.reschedule task false JUndefined /\ e' = e
        /\ note = "Recurring task disabled (invalid cron)")
  \/ (exists expr nt,
        recurrence_rule task expr /\ w' = clock_read w
        /\ computeNextFromSimpleCron expr (ValidDate (clock w (clock_reads w)))
           = Some (ValidDate nt)
        /\ task' = Task.reschedule task (Task.enabled task) (JStr (toISOString R nt))
        /\ e' = earlier e nt
        /\ note = "Recurring task rescheduled").
Proof.
  unfold advance, recurrence_rule.
  destruct (Js.truthy (Task.recurrence task)) eqn:Hrec; cbn [negb].
  2:{ unfold ret. intros [= <- <- <- <-]. left. auto. }
  unfold bind at 1, lift.
  destruct (get_prop (Task.timing task) "type") as [-> | ->]; [|discriminate].
  unfold ret at 1. unfold Date_current. run. fold (clock_read w).
  unfold Js.or_else. rewrite Hrec.
  destruct (if Js.is_string (Js.prop (Task.timing task) "type") "recurring"
            then Js.prop (Task.timing task) "cron"
            else Task.recurrence task) as [| | | |expr| |] eqn:Hrule;
    try discriminate.
  destruct (computeNextFromSimpleCron expr _) as [[nt|]|] eqn:Hnext; try discriminate.
  - intros [= <- <- <- <-]. right; right. exists expr, nt. auto 10.
  - intros [= <- <- <- <-]. right; left. exists expr. auto 10.
Qed.

Lemma visit_frame_refl w : visit_frame w w.
Proof. repeat split; auto. Qed.

Lemma visit_frame_trans w1 w2 w3 :
  visit_frame w1 w2 -> visit_frame w2 w3 -> visit_frame w1 w3.
Proof.
  unfold visit_frame. intros (?&?&?&?) (?&?&?&?).
  repeat split; try congruence. lia.
Qed.

(** The two ways a visit ends when it does not throw: nothing was due and
    the world is as it was, or the task fired. *)
Lemma alarm_visit_inv eff id e f w e' f' w' :
  alarm_visit R eff id e f w = (Ok (e', f'), w') ->
  (~ due_in R eff w id /\ w' = w /\ f' = f)
  \/ (exists task task' note evid,
        tasks (storage w) !! id = Some task /\ is_due R eff task
        /\ f' = (f ++ [fired_event evid id task'
                         (toISOString R (clock w (clock_reads w))) note])%list
        /\ tasks (storage w') = <[id := task']> (tasks (storage w))
        /\ visit_frame w w'
        /\ ((Js.truthy (Task.recurrence task) = false
             /\ task' = Task.reschedule task false JUndefined
             /\ note = "Task completed")
            \/ (exists expr,
                  recurrence_rule task expr
                  /\ computeNextFromSimpleCron expr
                       (ValidDate (clock w (S (clock_reads w)))) = None
                  /\ task' = Task.reschedule task false JUndefined
                  /\ note = "Recurring task disabled (invalid cron)")
            \/ (exists expr nt,
                  recurrence_rule task expr
                  /\ computeNextFromSimpleCron expr
                       (ValidDate (clock w (S (clock_reads w))))
                     = Some (ValidDate nt)
                  /\ task' = Task.reschedule task (Task.enabled task)
                               (JStr (toISOString R nt))
                  /\ note = "Recurring task rescheduled"))).
Proof.
  unfold alarm_visit, due_in, is_due. unfold bind at 1, read.
  destruct (tasks (storage w) !! id) as [task|] eqn:Hget.
  2:{ unfold ret. intros [= <- <- <-]. left. repeat split; auto.
      intros (t & [=] & _). }
  destruct (Task.enabled task) eqn:Hen; cbn [negb orb].
  2:{ unfold ret. intros [= <- <- <-]. left. repeat split; auto.
      intros (t & [= <-] & He & _). congruence. }
  destruct (Js.truthy (Task.nextRun task)) eqn:Htr; cbn [negb].
  2:{ unfold ret. intros [= <- <- <-]. left. repeat split; auto.
      intros (t & [= <-] & _ & Ht & _). congruence. }
  destruct (Date_parse_of R (Task.nextRun task)) as [n|] eqn:Hp.
  2:{ unfold ret. intros [= <- <- <-]. left. repeat split; auto.
      intros (t & [= <-] & _ & _ & n & Hn & _). congruence. }
  destruct (Z.leb_spec n eff) as [Hdue|Hlater].
  2:{ unfold ret. intros [= <- <- <-]. left. repeat split; auto.
      intros (t & [= <-] & _ & _ & n' & Hn & Hle). rewrite Hp in Hn.
      injection Hn as <-. lia. }
  unfold Date_current, toISOString_of, randomUUID. run.
  set (w1 := set_storage _ _).
  destruct (advance R task e w1) as [[[[task' e1] note]|err] w2] eqn:Hadv;
    [|discriminate].
  intros [= <- <- <-]. right. exists task, task', note, (uuids w2 (uuid_reads w2)).
  assert (visit_frame w w2 /\ tasks (storage w2) = tasks (storage w)) as (Hfr & Htasks).
  { apply advance_inv in Hadv.
    destruct Hadv as [(_ & -> & _)|[(? & _ & -> & _)|(? & ? & _ & -> & _)]];
      repeat split; subst w1; unfold clock_read; fields;
        first [reflexivity | lia]. }
  split; [reflexivity|]. split; [repeat split; eauto|].
  split; [reflexivity|]. split; [fields; now rewrite Htasks|].
  split. { destruct Hfr as (?&?&?&?). repeat split; auto. }
  apply advance_inv in Hadv.
  destruct Hadv as [(Hrec & _ & -> & _ & ->)
                   |[(expr & Hrule & _ & Hnext & -> & _ & ->)
                    |(expr & nt & Hrule & _ & Hnext & -> & _ & ->)]]; auto.
  - right; left. exists expr. auto.
  - right; right. exists expr, nt. auto.
Qed.

Lemma alarm_loop_cons eff id rest e f w :
  alarm_loop R eff (id :: rest) e f w
  = match alarm_visit R eff id e f w with
    | (Ok (e', f'), w') => alarm_loop R eff rest e' f' w'
    | (Throw err, w') => (Throw err, w')
    end.
Proof.
  cbn [alarm_loop]. unfold bind at 1.
  now destruct (alarm_visit R eff id e f w) as [[[e' f']|err] w'].
Qed.

Lemma alarm_visit_frame eff id e f w e' f' w' :
  alarm_visit R eff id e f w = (Ok (e', f'), w') -> visit_frame w w'.
Proof.
  intros Hv.
  apply alarm_visit_inv in Hv as [(_ & -> & _)|(?&?&?&?&_&_&_&_&Hfr&_)]; auto.
  apply visit_frame_refl.
Qed.

Lemma alarm_loop_frame eff idx e f w e' f' w' :
  alarm_loop R eff idx e f w = (Ok (e', f'), w') -> visit_frame w w'.
Proof.
  revert e f w. induction idx as [|id rest IH]; intros e f w.
  - intros [= <- <- <-]. apply visit_frame_refl.
  - rewrite alarm_loop_cons.
    destruct (alarm_visit R eff id e f w) as [[[e1 f1]|err] w1] eqn:Hv;
      [|discriminate].
    intros Hrest. apply IH in Hrest. apply alarm_visit_frame in Hv.
    eapply visit_frame_trans; eauto.
Qed.

(** *** One task through the loop *)

Section OneTask.
Variables (eff : Z) (id0 : string) (task0 : Task.t).



(** Once [id0] is stored as a task that is not due, with one event in the
    batch, the rest of the loop leaves both as they are. *)
Section Settled.
Variables (task1 : Task.t) (Q : TaskEvent.t -> Prop).
Hypothesis settled : ~ is_due R eff task1.



End Settled.
End OneTask.
(** *** The cycle as a whole *)

Lemma alarm_unfold w :
  alarm R w
  = match alarm_loop R (wake_effectiveNow w) (default [] (index (storage w)))
            None [] (wake_entry R w) with
    | (Ok (earliest, firedEvents), w1) =>
        match appendEvents firedEvents w1 with
        | (Ok _, w2) => rearm R earliest w2
        | (Throw err, w2) => (Throw err, w2)
        end
    | (Throw err, w1) => (Throw err, w1)
    end.
Proof.
  unfold alarm, Date_current, toISOString_of, wake_entry, wake_effectiveNow,
    clock_read. run. fields.
  match goal with |- context [alarm_loop R ?a ?b ?c ?d ?e] =>
    destruct (alarm_loop R a b c d e) as [[[e1 f1]|err] w1] end; auto.
  now destruct f1.
Qed.

Lemma arm_fallback_inert t iso w :
  storage (snd (arm_fallback t iso w)) = storage w
  /\ clock (snd (arm_fallback t iso w)) = clock w
  /\ uuid_reads (snd (arm_fallback t iso w)) = uuid_reads w
  /\ fst (arm_fallback t iso w) = Ok tt.
Proof.
  unfold arm_fallback. run.
  destruct (t - clock w (clock_reads w) <=? 0); [|repeat split].
  fields. destruct (same_iso (lastAlarmIso w) iso); repeat split.
Qed.

Lemma scheduleAlarm_inert date w :
  storage (snd (scheduleAlarm R date w)) = storage w
  /\ clock (snd (scheduleAlarm R date w)) = clock w
  /\ uuid_reads (snd (scheduleAlarm R date w)) = uuid_reads w.
Proof.
  destruct date as [t|]; [|repeat split].
  rewrite scheduleAlarm_run. cbn zeta.
  destruct (_ || _ || _); [repeat split|].
  destruct (setAlarm w); [repeat split| |];
    destruct (arm_fallback_inert t (toISOString R t)
                (set_pendingAlarmIso (Some (toISOString R t)) (clock_read w)))
      as (H1 & H2 & H3 & _); rewrite H1, H2, H3; repeat split.
Qed.

Lemma scheduleAlarm_returns t w : fst (scheduleAlarm R (ValidDate t) w) = Ok tt.
Proof.
  rewrite scheduleAlarm_run. cbn zeta.
  destruct (_ || _ || _); [reflexivity|].
  destruct (setAlarm w); [reflexivity| |]; apply arm_fallback_inert.
Qed.

Lemma rearm_inert earliest w :
  storage (snd (rearm R earliest w)) = storage w
  /\ clock (snd (rearm R earliest w)) = clock w
  /\ uuid_reads (snd (rearm R earliest w)) = uuid_reads w.
Proof.
  unfold rearm. destruct earliest as [e|]; [|repeat split]. run.
  destruct (e <=? clock w (clock_reads w) + 25);
    match goal with |- context [scheduleAlarm R ?d ?w1] =>
      destruct (scheduleAlarm_inert d w1) as (H1 & H2 & H3) end;
    rewrite H1, H2, H3; repeat split.
Qed.

Lemma appendEvents_inv batch w :
  exists w',
    appendEvents batch w = (Ok tt, w')
    /\ tasks (storage w') = tasks (storage w)
    /\ index (storage w') = index (storage w)
    /\ clock w' = clock w
    /\ event_log w'
       = match batch with
         | [] => event_log w
         | _ => last_entries EVENT_HISTORY_LIMIT (event_log w ++ batch)
         end.
Proof.
  destruct batch as [|evt batch].
  - exists w. repeat split.
  - eexists. split; [apply appendEvents_run; discriminate|]. repeat split.
Qed.

(** A cycle that returns: its loop returned, and what the cycle leaves in
    storage is what the loop left, with the batch appended to the log. *)
Lemma alarm_inv w w' :
  alarm R w = (Ok tt, w') ->
  exists earliest batch w1,
    alarm_loop R (wake_effectiveNow w) (default [] (index (storage w)))
      None [] (wake_entry R w) = (Ok (earliest, batch), w1)
    /\ tasks (storage w') = tasks (storage w1)
    /\ index (storage w') = index (storage w)
    /\ clock w' = clock w
    /\ event_log w'
       = match batch with
         | [] => event_log w
         | _ => last_entries EVENT_HISTORY_LIMIT (event_log w ++ batch)
         end.
Proof.
  intros Hrun. rewrite alarm_unfold in Hrun.
  destruct (alarm_loop R _ _ None [] (wake_entry R w)) as [[[e f]|err] w1] eqn:Hloop;
    [|discriminate].
  destruct (appendEvents_inv f w1) as (w2 & Happ & Htasks & Hindex & Hclk & Hlog).
  rewrite Happ in Hrun.
  destruct (rearm_inert e w2) as (Hst & Hclk' & _).
  rewrite Hrun in Hst, Hclk'. cbn [snd] in Hst, Hclk'.
  destruct (alarm_loop_frame _ _ _ _ _ _ _ _ Hloop) as (Hidx & Hev & Hclka & _).
  exists e, f, w1. split; [reflexivity|].
  split; [now rewrite Hst|]. split; [now rewrite Hst, Hindex, Hidx|].
  split; [now rewrite Hclk', Hclk, Hclka|].
  unfold event_log at 1. rewrite Hst. fold (event_log w2). rewrite Hlog.
  unfold event_log. now rewrite Hev.
Qed.




(** *** Two cycles back to back *)

Lemma due_in_tasks eff w w' id :
  tasks (storage w') = tasks (storage w) ->
  due_in R eff w' id <-> due_in R eff w id.
Proof. unfold due_in. now intros ->. Qed.

Section Frozen.
(** [Date.parse] reads back what [toISOString] prints, and yields time
    values a [Date] can hold. *)
Hypothesis parse_print :
  forall t, valid_time t -> Date_parse R (toISOString R t) = Some t.
Hypothesis parse_valid :
  forall s t, Date_parse R s = Some t -> valid_time t.

Variable now : Z.
Let eff := now + 250.

Lemma visit_settles id e f w e' f' w' :
  (forall k, clock w k = now) ->
  alarm_visit R eff id e f w = (Ok (e', f'), w') ->
  ~ due_in R eff w' id.
Proof.
  intros Hclock Hv.
  apply alarm_visit_inv in Hv
    as [(Hnot & -> & _)|(task & task' & note & evid & _ & _ & _ & Htasks & _ & Hcase)];
    auto.
  intros (t & Hget & Hen & Htr & n & Hn & Hle).
  rewrite Htasks, lookup_insert_eq in Hget. injection Hget as <-.
  destruct Hcase as [(_ & -> & _)|[(expr & _ & _ & -> & _)
                                  |(expr & nt & _ & Hnext & -> & _)]];
    try discriminate.
  apply computeNext_valid_inv in Hnext as (k & Hk & -> & Hv).
  cbn [Task.nextRun Task.reschedule] in Hn. unfold Date_parse_of in Hn.
  cbn [ToString] in Hn. rewrite parse_print in Hn by auto.
  injection Hn as <-. rewrite Hclock in Hle. unfold eff in Hle. lia.
Qed.

Lemma visit_keeps_settled id0 id e f w e' f' w' :
  alarm_visit R eff id e f w = (Ok (e', f'), w') ->
  ~ due_in R eff w id0 -> ~ due_in R eff w' id0.
Proof.
  intros Hv Hnot.
  apply alarm_visit_inv in Hv
    as [(_ & -> & _)|(task & task' & note & evid & Hget & Hdue & _ & Htasks & _)];
    auto.
  intros (t & Hget' & Hdue'). rewrite Htasks in Hget'.
  destruct (decide (id = id0)) as [->|Hne].
  - apply Hnot. exists task. auto.
  - rewrite lookup_insert_ne in Hget' by auto. apply Hnot. exists t. auto.
Qed.

Lemma loop_keeps_settled id0 idx e f w e' f' w' :
  alarm_loop R eff idx e f w = (Ok (e', f'), w') ->
  ~ due_in R eff w id0 -> ~ due_in R eff w' id0.
Proof.
  revert e f w. induction idx as [|id rest IH]; intros e f w.
  - now intros [= <- <- <-].
  - rewrite alarm_loop_cons.
    destruct (alarm_visit R eff id e f w) as [[[e1 f1]|err] w1] eqn:Hv;
      [|discriminate].
    intros Hrest Hnot. eapply IH; eauto. eapply visit_keeps_settled; eauto.
Qed.

Lemma loop_settles idx e f w e' f' w' :
  (forall k, clock w k = now) ->
  alarm_loop R eff idx e f w = (Ok (e', f'), w') ->
  forall id, In id idx -> ~ due_in R eff w' id.
Proof.
  revert e f w. induction idx as [|id rest IH]; intros e f w Hclock; [intros _ ? []|].
  rewrite alarm_loop_cons.
  destruct (alarm_visit R eff id e f w) as [[[e1 f1]|err] w1] eqn:Hv;
    [|discriminate].
  intros Hrest id' [<-|Hin].
  - eapply loop_keeps_settled; eauto. eapply visit_settles; eauto.
  - assert (clock w1 = clock w) as Hclk
      by (apply alarm_visit_frame in Hv; apply Hv).
    eapply (IH e1 f1 w1); eauto. intros k. now rewrite Hclk.
Qed.

Lemma candidate_earlier e n :
  candidate eff e -> eff < n -> valid_time n -> candidate eff (earlier e n).
Proof.
  unfold candidate, earlier. intros He Hn Hv m.
  destruct e as [e0|]; [destruct (n <? e0)|]; intros [= <-]; auto.
Qed.

Lemma visit_quiet id e f w :
  ~ due_in R eff w id -> candidate eff e ->
  exists e', alarm_visit R eff id e f w = (Ok (e', f), w) /\ candidate eff e'.
Proof.
  intros Hnot Hc. unfold alarm_visit. unfold bind at 1, read.
  destruct (tasks (storage w) !! id) as [task|] eqn:Hget; [|exists e; auto].
  destruct (Task.enabled task) eqn:Hen; cbn [negb orb]; [|exists e; auto].
  destruct (Js.truthy (Task.nextRun task)) eqn:Htr; cbn [negb]; [|exists e; auto].
  destruct (Date_parse_of R (Task.nextRun task)) as [n|] eqn:Hp; [|exists e; auto].
  destruct (Z.leb_spec n eff) as [Hdue|Hlater].
  - elim Hnot. exists task. repeat split; eauto.
  - unfold ret. destruct (Z.ltb_spec eff n); [|lia].
    eexists; split; [reflexivity|]. apply candidate_earlier; auto.
    eapply parse_valid; eauto.
Qed.

Lemma loop_quiet idx e f w :
  (forall id, In id idx -> ~ due_in R eff w id) -> candidate eff e ->
  exists e', alarm_loop R eff idx e f w = (Ok (e', f), w) /\ candidate eff e'.
Proof.
  revert e. induction idx as [|id rest IH]; intros e Hnone Hc.
  - exists e. auto.
  - rewrite alarm_loop_cons.
    destruct (visit_quiet id e f w) as (e1 & -> & Hc1); auto using in_eq.
    apply IH; auto using in_cons.
Qed.

Lemma rearm_candidate e w :
  (forall k, clock w k = now) -> candidate eff e ->
  fst (rearm R e w) = Ok tt.
Proof.
  intros Hclock Hc. unfold rearm. destruct e as [n|]; [|reflexivity].
  destruct (Hc n eq_refl) as [Hn Hv]. run. rewrite Hclock.
  destruct (Z.leb_spec n (now + 25)); [unfold eff in Hn; lia|].
  rewrite new_Date_valid by auto. apply scheduleAlarm_returns.
Qed.

(** X3.  Two wake cycles back to back, the clock standing still: when the
    first returns, no indexed task is due any more, and the second returns
    too and leaves storage as it found it (no task is written, no event is
    appended) without drawing an event id. *)
Theorem alarm_again_fires_nothing (w w1 : World) :
  (forall k, clock w k = now) ->
  alarm R w = (Ok tt, w1) ->
  (forall id, In id (default [] (index (storage w1))) ->
              ~ due_in R (wake_effectiveNow w1) w1 id)
  /\ exists w2,
       alarm R w1 = (Ok tt, w2)
       /\ storage w2 = storage w1
       /\ uuid_reads w2 = uuid_reads w1.
Proof.
  intros Hclock Hrun.
  assert (wake_effectiveNow w = eff) as Heff
    by (unfold wake_effectiveNow; now rewrite Hclock).
  apply alarm_inv in Hrun as (e & batch & wa & Hloop & Htasks & Hindex & Hclk & _).
  rewrite Heff in Hloop.
  assert (forall k, clock w1 k = now) as Hfrozen
    by (intros k; now rewrite Hclk).
  assert (wake_effectiveNow w1 = eff) as Heff1
    by (unfold wake_effectiveNow; now rewrite Hfrozen).
  assert (forall id, In id (default [] (index (storage w1))) ->
                     ~ due_in R eff w1 id) as Hsettled.
  { intros id Hin. rewrite Hindex in Hin.
    rewrite (due_in_tasks eff wa w1 id) by exact Htasks.
    eapply (loop_settles _ _ _ (wake_entry R w)); eauto. }
  rewrite Heff1. split; [exact Hsettled|].
  destruct (loop_quiet (default [] (index (storage w1))) None [] (wake_entry R w1))
    as (e' & Hquiet & Hc').
  { intros id Hin. rewrite (due_in_tasks eff w1 (wake_entry R w1) id) by reflexivity.
    auto. }
  { intros n [=]. }
  exists (snd (alarm R w1)).
  assert (alarm R w1 = rearm R e' (wake_entry R w1)) as Hrun1.
  { rewrite alarm_unfold, Heff1, Hquiet. reflexivity. }
  destruct (rearm_inert e' (wake_entry R w1)) as (Hst1 & _ & Huuid1).
  rewrite Hrun1. repeat split; auto.
  rewrite (surjective_pairing (rearm R e' (wake_entry R w1))). f_equal.
  apply rearm_candidate; auto.
Qed.

End Frozen.
End WakeCycle.

Lemma returns {A} (m : M A) (w : World) (a : A) :
  fst (m w) = Ok a -> m w = (Ok a, snd (m w)).
Proof. destruct (m w) as [r w']. now intros [= ->]. Qed.



Lemma alarm_again_fires_nothing_witness :
  let w := Sample.later 400000
             (Sample.create Sample.standup_request
                (Sample.create Sample.digest_request
                   (Sample.world Sample.empty_storage 1))) in
  let w1 := snd (alarm Iso8601.runtime w) in
  (forall id, In id (default [] (index (storage w1))) ->
              ~ due_in Iso8601.runtime (wake_effectiveNow w1) w1 id)
  /\ exists w2,
       alarm Iso8601.runtime w1 = (Ok tt, w2)
       /\ storage w2 = storage w1
       /\ uuid_reads w2 = uuid_reads w1.
Proof.
  cbv zeta.
  apply (alarm_again_fires_nothing Iso8601.runtime iso8601_parse_print
           iso8601_parse_valid (Sample.now + 400008)
           (Sample.later 400000
              (Sample.create Sample.standup_request
                 (Sample.create Sample.digest_request
                    (Sample.world Sample.empty_storage 1))))).
  - intros k. vm_compute. reflexivity.
  - apply returns. vm_compute. reflexivity.
Defined.

(** ** The wake handler on recorded requests *)

(** C1 does not hold of the code.  A task created with timing
    [{type: "recurring", cron: "*/5 * * * *"}] and no [recurrence] property is
    stored with [recurrence: null]; six minutes later it is enabled and due,
    and the wake cycle takes the single-run branch: the task is disabled,
    its [nextRun] is cleared, and the fired event carries the note
    "Task completed". *)
Theorem alarm_completes_task_with_recurring_timing :
  let w := Sample.later 360000
             (Sample.create Sample.heartbeat_request
                (Sample.world Sample.empty_storage 1)) in
  let w' := snd (alarm Iso8601.runtime w) in
  supported_cron "*/5 * * * *"
  /\ Task.timing <$> tasks (storage w) !! "uuid-0"
     = Some (JObj [("type", JStr "recurring"); ("cron", JStr "*/5 * * * *")])
  /\ schedule_of w "uuid-0"
     = Some (true, JStr "2023-11-14T22:18:20.001Z", JNull)
  /\ Iso8601.parse "2023-11-14T22:18:20.001Z" = Some (Sample.now + 300001)
  /\ clock w (clock_reads w) = Sample.now + 360004
  /\ fst (alarm Iso8601.runtime w) = Ok tt
  /\ schedule_of w' "uuid-0" = Some (false, JUndefined, JNull)
  /\ Sample.summary (event_log w')
     = [("uuid-0", created, "Scheduled"); ("uuid-0", fired, "Task completed")].
Proof.
  cbv zeta. split.
  - exists "5". repeat split; try discriminate; vm_compute; congruence.
  - conjuncts; vm_compute; reflexivity.
Qed.

(** C2 does not hold of the code.  With a due one-off task ("Stand-up")
    ahead in the index of a due task whose recurrence rule is
    [*/200000000000 * * * *], the wake cycle stores the first task disabled
    and without [nextRun], then throws a RangeError while rescheduling the
    second ([toISOString] of the invalid date that
    [computeNextFromSimpleCron] returned); the batch of fired events is
    never appended, so the log holds no fired event for the first task. *)
Theorem alarm_aborts_after_completing_a_task :
  let w := Sample.later 5000
             (Sample.create Sample.backup_request
                (Sample.create Sample.standup_request
                   (Sample.world Sample.empty_storage 1))) in
  let w' := snd (alarm Iso8601.runtime w) in
  index (storage w) = Some ["uuid-0"; "uuid-2"]
  /\ schedule_of w "uuid-0"
     = Some (true, JStr "2023-11-14T22:13:21.001Z", JNull)
  /\ Iso8601.parse "2023-11-14T22:13:21.001Z" = Some (Sample.now + 1001)
  /\ clock w (clock_reads w) = Sample.now + 5008
  /\ fst (alarm Iso8601.runtime w) = Throw RangeError
  /\ schedule_of w' "uuid-0" = Some (false, JUndefined, JNull)
  /\ event_log w' = event_log w
  /\ Sample.summary (event_log w')
     = [("uuid-0", created, "Scheduled"); ("uuid-2", created, "Scheduled")].
Proof.
  cbv zeta. conjuncts; vm_compute; reflexivity.
Qed.

(** C9 does not hold of the code.  In the same state two wake cycles run
    back to back with the clock standing still.  The first throws after
    completing "Stand-up" and appends nothing; the second finds the other
    task still due and throws again: no fired event is ever logged for
    either task that was due. *)
Theorem alarm_twice_aborts_twice :
  let w := Sample.later 5000
             (Sample.create Sample.backup_request
                (Sample.create Sample.standup_request
                   (Sample.world Sample.empty_storage 1))) in
  let w1 := snd (alarm Iso8601.runtime w) in
  let w2 := snd (alarm Iso8601.runtime w1) in
  (forall k, clock w k = Sample.now + 5008)
  /\ schedule_of w "uuid-0"
     = Some (true, JStr "2023-11-14T22:13:21.001Z", JNull)
  /\ schedule_of w "uuid-2"
     = Some (true, JStr "2023-11-14T22:13:21.005Z",
             JStr "*/200000000000 * * * *")
  /\ fst (alarm Iso8601.runtime w) = Throw RangeError
  /\ fst (alarm Iso8601.runtime w1) = Throw RangeError
  /\ schedule_of w1 "uuid-2" = schedule_of w "uuid-2"
  /\ event_log w1 = event_log w
  /\ event_log w2 = event_log w
  /\ Sample.summary (event_log w)
     = [("uuid-0", created, "Scheduled"); ("uuid-2", created, "Scheduled")].
Proof.
  cbv zeta. split; [intros k|conjuncts]; vm_compute; reflexivity.
Qed.

Example print_epoch : Iso8601.print 0 = "1970-01-01T00:00:00.000Z".
Proof. reflexivity. Qed.

Example print_2023 : Iso8601.print 1700000000123 = "2023-11-14T22:13:20.123Z".
Proof. reflexivity. Qed.

Example parse_2023 : Iso8601.parse "2023-11-14T22:13:20.123Z" = Some 1700000000123.
Proof. reflexivity. Qed.

Example print_before_epoch : Iso8601.print (-1) = "1969-12-31T23:59:59.999Z".
Proof. reflexivity. Qed.

Example print_far : Iso8601.print MAX_TIME = "+275760-09-13T00:00:00.000Z".
Proof. vm_compute. reflexivity. Qed.

Example parse_far : Iso8601.parse "+275760-09-13T00:00:00.000Z" = Some MAX_TIME.
Proof. vm_compute. reflexivity. Qed.
